(** * Postfix SMTP client: error handler policies (smtp_trouble.c)

    A shallow embedding of [src/smtp/smtp_trouble.c] and of the request
    deadline accounting described in the release notes, together with the
    properties of the recipient bookkeeping, of the final server flag, of
    the response code classification and of the deadline arithmetic. *)

From stdpp Require Import base list strings.
From Stdlib Require Import ZArith QArith Qminmax Lia.
From Stdlib Require Import Ascii.

Open Scope Z_scope.

(** ** Data model

    C [int], [long] and [time_t] values are integers in [Z]; the only
    arithmetic the module does on them is division by 100, comparison and
    bitwise or, none of which can leave the range of the C type.
    [char *] texts are strings, a [char *] that may be null is an
    [option string]. *)

(** [RECIPIENT] of deliver_request.h, with the members the module reads. *)
Record RECIPIENT : Type := mk_RECIPIENT {
  offset : Z;            (* REC_TYPE_RCPT byte; 0 once the recipient is done *)
  orig_addr : string;    (* null or original recipient *)
  address : string       (* complete address *)
}.

(** [DELIVER_REQUEST]; [rcpt_list.info] with [rcpt_list.len] is a list. *)
Record DELIVER_REQUEST : Type := mk_DELIVER_REQUEST {
  flags : Z;
  queue_id : string;
  arrival_time : Z;
  rcpt_list : list RECIPIENT;
  hop_status : option string
}.

(** [SMTP_SESSION], of which the module reads [namaddr] only. *)
Record SMTP_SESSION : Type := mk_SMTP_SESSION {
  namaddr : string
}.

(** [SMTP_STATE]. [src] is the queue file stream, kept as an opaque handle;
    [session] is a pointer that may be null. *)
Record SMTP_STATE : Type := mk_SMTP_STATE {
  src : Z;
  request : DELIVER_REQUEST;
  session : option SMTP_SESSION;
  status : Z;
  final_server : Z;
  error_mask : Z
}.

(** Arguments of [defer_append] and [bounce_append] (and of their
    [va_list] variants), with the reason text already formatted. *)
Record APPEND_ARGS : Type := mk_APPEND_ARGS {
  a_flags : Z;
  a_queue_id : string;
  a_orig_rcpt : string;
  a_recipient : string;
  a_offset : Z;
  a_relay : string;
  a_entered : Z;
  a_why : string
}.

(** What the module does to the world outside [SMTP_STATE]: the calls of
    the external routines, in the order in which they happen. *)
Inductive event : Type :=
  | Ev_msg_info (id text : string)
  | Ev_defer_append (a : APPEND_ARGS)
  | Ev_bounce_append (a : APPEND_ARGS)
  | Ev_deliver_completed (stream : Z) (off : Z).

(** A call returns, or the process is aborted by [msg_panic], or the call
    dereferences a null or dangling pointer. *)
Inductive result (A : Type) : Type :=
  | Done (a : A)
  | Panic (code : Z)
  | Fault.
Arguments Done {A} a.
Arguments Panic {A} code.
Arguments Fault {A}.

Definition rbind {A B : Type} (m : result A) (k : A -> result B) : result B :=
  match m with
  | Done a => k a
  | Panic c => Panic c
  | Fault => Fault
  end.

Notation "x <-- m ;; k" := (rbind m (fun x => k))
  (at level 100, m at next level, right associativity).

(** Dereference of a pointer that may be null. *)
Definition deref {A : Type} (p : option A) : result A :=
  match p with
  | Some a => Done a
  | None => Fault
  end.

(** The value a call returned, or [d] when it did not return. *)
Definition result_or {A : Type} (d : A) (r : result A) : A :=
  match r with
  | Done a => a
  | _ => d
  end.


(** The mutable members of the records, one setter per assignment target. *)
Definition set_offset (rcpt : RECIPIENT) (v : Z) : RECIPIENT :=
  {| offset := v; orig_addr := orig_addr rcpt; address := address rcpt |}.

Definition set_rcpt_list (req : DELIVER_REQUEST) (l : list RECIPIENT)
  : DELIVER_REQUEST :=
  {| flags := flags req; queue_id := queue_id req;
     arrival_time := arrival_time req; rcpt_list := l;
     hop_status := hop_status req |}.

Definition set_hop_status (req : DELIVER_REQUEST) (h : option string)
  : DELIVER_REQUEST :=
  {| flags := flags req; queue_id := queue_id req;
     arrival_time := arrival_time req; rcpt_list := rcpt_list req;
     hop_status := h |}.

Definition set_request (st : SMTP_STATE) (req : DELIVER_REQUEST) : SMTP_STATE :=
  {| src := src st; request := req; session := session st;
     status := status st; final_server := final_server st;
     error_mask := error_mask st |}.

Definition set_status (st : SMTP_STATE) (v : Z) : SMTP_STATE :=
  {| src := src st; request := request st; session := session st;
     status := v; final_server := final_server st;
     error_mask := error_mask st |}.

Definition set_final_server (st : SMTP_STATE) (v : Z) : SMTP_STATE :=
  {| src := src st; request := request st; session := session st;
     status := status st; final_server := v;
     error_mask := error_mask st |}.

Definition set_error_mask (st : SMTP_STATE) (v : Z) : SMTP_STATE :=
  {| src := src st; request := request st; session := session st;
     status := status st; final_server := final_server st;
     error_mask := v |}.

(** ** Response codes *)

(** [#define SMTP_SOFT(code) (((code) / 100) == 4)]; C division truncates. *)
Definition SMTP_SOFT (code : Z) : bool := Z.quot code 100 =? 4.

(** [#define SMTP_HARD(code) (((code) / 100) == 5)] *)
Definition SMTP_HARD (code : Z) : bool := Z.quot code 100 =? 5.

Inductive code_class : Type := Soft | Hard | Neither.

(** The soft/hard classification that the two macros give together. *)
Definition classify (code : Z) : code_class :=
  if SMTP_SOFT code then Soft
  else if SMTP_HARD code then Hard
  else Neither.

(** The condition of the [if] in [smtp_check_code]. *)
Definition protocol_anomaly (code : Z) : bool :=
  (negb (SMTP_SOFT code) && negb (SMTP_HARD code))
  || (code =? 555)
  || ((500 <=? code) && (code <? 510)).

(** ** Request deadline with a minimum data rate

    The code that keeps the deadline is in the stream library, outside this
    module. Times are in seconds and are rationals; byte counts and the
    rate are integers. *)

(** Modelled from the spec: the DeadlineBudget of the data model, whose
    code is not part of this module: the remaining allowance, the ceiling
    and the minimum acceptable data rate. *)
Record DeadlineBudget : Type := mk_DeadlineBudget {
  remaining : Q;
  ceiling : Q;
  floor_rate : Z
}.

(** Modelled from the spec: the two states of the Deadline Tracker. *)
Inductive tracker_state : Type := Active | Exhausted.

(** Modelled from the spec: [start] of the Deadline Tracker, whose code is
    not part of this module. The remaining budget starts at the configured
    request deadline; the ceiling and the floor rate are recorded. *)
Definition start (request_deadline : Q) (ceiling : Q) (floor_rate : Z)
  : DeadlineBudget :=
  {| remaining := request_deadline; ceiling := ceiling;
     floor_rate := floor_rate |}.

(** Modelled from the spec: [on_read] of the Deadline Tracker, whose code is
    not part of this module. Subtract [elapsed]; if the floor rate is
    enabled (non-zero) and bytes were transferred, add
    [bytes_transferred / floor_rate] seconds; then clamp to at most the
    ceiling. *)
Definition on_read (b : DeadlineBudget) (bytes_transferred : Z) (elapsed : Q)
  : DeadlineBudget :=
  let r1 := (remaining b - elapsed)%Q in
  let r2 :=
    if negb (floor_rate b =? 0) && (0 <? bytes_transferred)
    then (r1 + inject_Z bytes_transferred / inject_Z (floor_rate b))%Q
    else r1 in
  {| remaining := if Qle_bool r2 (ceiling b) then r2 else ceiling b;
     ceiling := ceiling b;
     floor_rate := floor_rate b |}.

(** Modelled from the spec: the state of a Deadline Tracker, whose code is
    not part of this module: Active while the budget is positive and
    Exhausted once it is zero or less. *)
Definition tracker_state_of (b : DeadlineBudget) : tracker_state :=
  if Qle_bool (remaining b) 0 then Exhausted else Active.

(** The budgets after each of a sequence of reads, in order. *)
Fixpoint on_reads (b : DeadlineBudget) (reads : list (Z * Q))
  : list DeadlineBudget :=
  match reads with
  | [] => []
  | (n, t) :: rest => let b' := on_read b n t in b' :: on_reads b' rest
  end.

(** A world: the client state and the external calls made so far, oldest
    first. *)
Definition world : Type := SMTP_STATE * list event.

(** ** Built-in main.cf parameters (postconf_builtin.c)

    The functions that compute the default values of [myhostname],
    [mydomain] and [mynetworks]. Their [static] variables and the global
    [var_...] variables they assign are members of one state record,
    together with the calls they make to the rest of the program, oldest
    first. *)

Inductive pcf_event : Type :=
  | Pcf_get_hostname
  | Pcf_lookup_eval (name : string)
  | Pcf_expand (mode : Z) (value : string)
  | Pcf_inet_proto_init (context protocols : string)
  | Pcf_mynetworks.

Record PCF_STATE : Type := mk_PCF_STATE {
  myhostname_name : option string;     (* static name, pcf_check_myhostname *)
  mydomainname_domain : option string; (* static domain, pcf_check_mydomainname *)
  mynetworks_networks : option string; (* static networks, pcf_mynetworks *)
  var_myhostname : option string;
  var_inet_interfaces : option string;
  var_mynetworks_style : option string;
  var_inet_protocols : option string;
  pcf_calls : list pcf_event
}.

(** What the file takes from its headers and from other modules: the host
    name of the machine, the main.cf lookup, the expansion of a default
    value, the network list, the command mode, and the names and default
    values of the parameters. *)
Record PCF_ENV : Type := mk_PCF_ENV {
  get_hostname : string;
  mail_conf_lookup_eval : string -> option string;
  pcf_expand_parameter_value : Z -> string -> string;
  mynetworks : PCF_STATE -> string;
  pcf_cmd_mode : Z;
  PCF_SHOW_DEFS : Z;
  VAR_MYDOMAIN : string;
  DEF_MYDOMAIN : string;
  VAR_MYHOSTNAME : string;
  VAR_INET_INTERFACES : string;
  DEF_INET_INTERFACES : string;
  VAR_MYNETWORKS_STYLE : string;
  DEF_MYNETWORKS_STYLE : string;
  VAR_INET_PROTOCOLS : string;
  DEF_INET_PROTOCOLS : string
}.

Definition pcf_call (e : pcf_event) (st : PCF_STATE) : PCF_STATE :=
  {| myhostname_name := myhostname_name st;
     mydomainname_domain := mydomainname_domain st;
     mynetworks_networks := mynetworks_networks st;
     var_myhostname := var_myhostname st;
     var_inet_interfaces := var_inet_interfaces st;
     var_mynetworks_style := var_mynetworks_style st;
     var_inet_protocols := var_inet_protocols st;
     pcf_calls := pcf_calls st ++ [e] |}.

Definition set_myhostname_name (st : PCF_STATE) (v : option string)
  : PCF_STATE :=
  {| myhostname_name := v;
     mydomainname_domain := mydomainname_domain st;
     mynetworks_networks := mynetworks_networks st;
     var_myhostname := var_myhostname st;
     var_inet_interfaces := var_inet_interfaces st;
     var_mynetworks_style := var_mynetworks_style st;
     var_inet_protocols := var_inet_protocols st;
     pcf_calls := pcf_calls st |}.

Definition set_mydomainname_domain (st : PCF_STATE) (v : option string)
  : PCF_STATE :=
  {| myhostname_name := myhostname_name st;
     mydomainname_domain := v;
     mynetworks_networks := mynetworks_networks st;
     var_myhostname := var_myhostname st;
     var_inet_interfaces := var_inet_interfaces st;
     var_mynetworks_style := var_mynetworks_style st;
     var_inet_protocols := var_inet_protocols st;
     pcf_calls := pcf_calls st |}.

Definition set_mynetworks_networks (st : PCF_STATE) (v : option string)
  : PCF_STATE :=
  {| myhostname_name := myhostname_name st;
     mydomainname_domain := mydomainname_domain st;
     mynetworks_networks := v;
     var_myhostname := var_myhostname st;
     var_inet_interfaces := var_inet_interfaces st;
     var_mynetworks_style := var_mynetworks_style st;
     var_inet_protocols := var_inet_protocols st;
     pcf_calls := pcf_calls st |}.

Definition set_var_myhostname (st : PCF_STATE) (v : option string)
  : PCF_STATE :=
  {| myhostname_name := myhostname_name st;
     mydomainname_domain := mydomainname_domain st;
     mynetworks_networks := mynetworks_networks st;
     var_myhostname := v;
     var_inet_interfaces := var_inet_interfaces st;
     var_mynetworks_style := var_mynetworks_style st;
     var_inet_protocols := var_inet_protocols st;
     pcf_calls := pcf_calls st |}.

Definition set_var_inet_interfaces (st : PCF_STATE) (v : option string)
  : PCF_STATE :=
  {| myhostname_name := myhostname_name st;
     mydomainname_domain := mydomainname_domain st;
     mynetworks_networks := mynetworks_networks st;
     var_myhostname := var_myhostname st;
     var_inet_interfaces := v;
     var_mynetworks_style := var_mynetworks_style st;
     var_inet_protocols := var_inet_protocols st;
     pcf_calls := pcf_calls st |}.

Definition set_var_mynetworks_style (st : PCF_STATE) (v : option string)
  : PCF_STATE :=
  {| myhostname_name := myhostname_name st;
     mydomainname_domain := mydomainname_domain st;
     mynetworks_networks := mynetworks_networks st;
     var_myhostname := var_myhostname st;
     var_inet_interfaces := var_inet_interfaces st;
     var_mynetworks_style := v;
     var_inet_protocols := var_inet_protocols st;
     pcf_calls := pcf_calls st |}.

Definition set_var_inet_protocols (st : PCF_STATE) (v : option string)
  : PCF_STATE :=
  {| myhostname_name := myhostname_name st;
     mydomainname_domain := mydomainname_domain st;
     mynetworks_networks := mynetworks_networks st;
     var_myhostname := var_myhostname st;
     var_inet_interfaces := var_inet_interfaces st;
     var_mynetworks_style := var_mynetworks_style st;
     var_inet_protocols := v;
     pcf_calls := pcf_calls st |}.

(** [strchr(s, c)]: the rest of [s] from the first [c] on, if there is
    one. *)
Fixpoint strchr (s : string) (c : ascii) : option string :=
  match s with
  | EmptyString => None
  | String a t => if Ascii.eqb a c then Some s else strchr t c
  end.

(** [p + 1] for a pointer [p] into a string. *)
Definition str_next (p : string) : string :=
  match p with
  | EmptyString => EmptyString
  | String _ t => t
  end.

(** [mail_conf_lookup_eval(name)], with the call recorded. *)
Definition pcf_lookup (env : PCF_ENV) (name : string) (st : PCF_STATE)
  : option string * PCF_STATE :=
  (mail_conf_lookup_eval env name, pcf_call (Pcf_lookup_eval name) st).

(** [pcf_check_myhostname - lookup hostname and validate] *)
Definition pcf_check_myhostname (env : PCF_ENV) (st : PCF_STATE)
  : string * PCF_STATE :=
  match myhostname_name st with
  | Some name => (name, st)
  | None =>
      let name := get_hostname env in
      let st1 := pcf_call Pcf_get_hostname st in
      match strchr name "."%char with
      | None =>
          let '(found, st2) := pcf_lookup env (VAR_MYDOMAIN env) st1 in
          let domain :=
            match found with
            | Some d => d
            | None => DEF_MYDOMAIN env
            end in
          let name' := name +:+ "." +:+ domain in
          (name', set_myhostname_name st2 (Some name'))
      | Some _ => (name, set_myhostname_name st1 (Some name))
      end
  end.

(** [pcf_get_myhostname - look up and store my hostname] *)
Definition pcf_get_myhostname (env : PCF_ENV) (st : PCF_STATE) : PCF_STATE :=
  let '(found, st1) := pcf_lookup env (VAR_MYHOSTNAME env) st in
  let '(name, st2) :=
    match found with
    | Some n => (n, st1)
    | None => pcf_check_myhostname env st1
    end in
  set_var_myhostname st2 (Some name).

(** [pcf_check_mydomainname - lookup domain name and validate]. Passing a
    null [var_myhostname] to [strchr] is a fault. *)
Definition pcf_check_mydomainname (env : PCF_ENV) (st : PCF_STATE)
  : result (string * PCF_STATE) :=
  match mydomainname_domain st with
  | Some domain => Done (domain, st)
  | None =>
      let st1 :=
        match var_myhostname st with
        | None => pcf_get_myhostname env st
        | Some _ => st
        end in
      host <-- deref (var_myhostname st1) ;;
      match strchr host "."%char with
      | None =>
          Done (DEF_MYDOMAIN env,
                set_mydomainname_domain st1 (Some (DEF_MYDOMAIN env)))
      | Some dot =>
          Done (str_next dot,
                set_mydomainname_domain st1 (Some (str_next dot)))
      end
  end.

(** The value that [pcf_mynetworks] stores in a variable that is not set:
    the main.cf value, or the expanded default when defaults are being
    shown or main.cf has no value. The lookup is the right operand of
    [||], so it is not made when defaults are being shown. *)
Definition pcf_mynetworks_value (env : PCF_ENV) (name defval : string)
    (st : PCF_STATE) : string * PCF_STATE :=
  let expanded (st0 : PCF_STATE) :=
    (pcf_expand_parameter_value env (pcf_cmd_mode env) defval,
     pcf_call (Pcf_expand (pcf_cmd_mode env) defval) st0) in
  if negb (Z.land (pcf_cmd_mode env) (PCF_SHOW_DEFS env) =? 0)
  then expanded st
  else
    let '(found, st1) := pcf_lookup env name st in
    match found with
    | Some junk => (junk, st1)
    | None => expanded st1
    end.

(** [pcf_mynetworks - lookup network address list] *)
Definition pcf_mynetworks (env : PCF_ENV) (st : PCF_STATE)
  : string * PCF_STATE :=
  match mynetworks_networks st with
  | Some networks => (networks, st)
  | None =>
      let st1 :=
        match var_inet_interfaces st with
        | None =>
            let '(junk, s) :=
              pcf_mynetworks_value env (VAR_INET_INTERFACES env)
                (DEF_INET_INTERFACES env) st in
            set_var_inet_interfaces s (Some junk)
        | Some _ => st
        end in
      let st2 :=
        match var_mynetworks_style st1 with
        | None =>
            let '(junk, s) :=
              pcf_mynetworks_value env (VAR_MYNETWORKS_STYLE env)
                (DEF_MYNETWORKS_STYLE env) st1 in
            set_var_mynetworks_style s (Some junk)
        | Some _ => st1
        end in
      let st3 :=
        match var_inet_protocols st2 with
        | None =>
            let '(junk, s) :=
              pcf_mynetworks_value env (VAR_INET_PROTOCOLS env)
                (DEF_INET_PROTOCOLS env) st2 in
            pcf_call (Pcf_inet_proto_init (VAR_INET_PROTOCOLS env) junk)
              (set_var_inet_protocols s (Some junk))
        | Some _ => st2
        end in
      let networks := mynetworks env st3 in
      (networks,
       set_mynetworks_networks (pcf_call Pcf_mynetworks st3) (Some networks))
  end.

(** The state before the first call. *)
Definition pcf_initial : PCF_STATE :=
  mk_PCF_STATE None None None None None None None [].

(** The number of calls of a kind in a history. *)
Definition pcf_count (p : pcf_event -> bool) (st : PCF_STATE) : nat :=
  length (List.filter p (pcf_calls st)).

Definition is_lookup_eval (e : pcf_event) : bool :=
  match e with Pcf_lookup_eval _ => true | _ => false end.

Definition is_get_hostname (e : pcf_event) : bool :=
  match e with Pcf_get_hostname => true | _ => false end.

Definition is_inet_proto_init (e : pcf_event) : bool :=
  match e with Pcf_inet_proto_init _ _ => true | _ => false end.

(** A sample environment: a host name without a domain, a main.cf that
    sets [mydomain] only, and the usual names and defaults. *)
Definition sample_env : PCF_ENV :=
  {| get_hostname := "mail";
     mail_conf_lookup_eval :=
       fun name => if String.eqb name "mydomain"
                   then Some "example.com"%string else None;
     pcf_expand_parameter_value := fun _ value => value;
     mynetworks := fun _ => "127.0.0.0/8"%string;
     pcf_cmd_mode := 0;
     PCF_SHOW_DEFS := 2;
     VAR_MYDOMAIN := "mydomain";
     DEF_MYDOMAIN := "localdomain";
     VAR_MYHOSTNAME := "myhostname";
     VAR_INET_INTERFACES := "inet_interfaces";
     DEF_INET_INTERFACES := "all";
     VAR_MYNETWORKS_STYLE := "mynetworks_style";
     DEF_MYNETWORKS_STYLE := "subnet";
     VAR_INET_PROTOCOLS := "inet_protocols";
     DEF_INET_PROTOCOLS := "all" |}.


(** The same with defaults being shown, and a main.cf that sets
    [inet_interfaces]. *)
Definition sample_env_defs : PCF_ENV :=
  {| get_hostname := "mail";
     mail_conf_lookup_eval :=
       fun name => if String.eqb name "inet_interfaces"
                   then Some "loopback-only"%string else None;
     pcf_expand_parameter_value := fun _ value => value;
     mynetworks := fun _ => "127.0.0.0/8"%string;
     pcf_cmd_mode := 2;
     PCF_SHOW_DEFS := 2;
     VAR_MYDOMAIN := "mydomain";
     DEF_MYDOMAIN := "localdomain";
     VAR_MYHOSTNAME := "myhostname";
     VAR_INET_INTERFACES := "inet_interfaces";
     DEF_INET_INTERFACES := "all";
     VAR_MYNETWORKS_STYLE := "mynetworks_style";
     DEF_MYNETWORKS_STYLE := "subnet";
     VAR_INET_PROTOCOLS := "inet_protocols";
     DEF_INET_PROTOCOLS := "all" |}.

(** ** Sample values

    A request with three recipients, the second of which is done already,
    a session, and services with a fixed result. The constants have the
    values of mail_error.h and smtp_stream.h:
    [MAIL_ERROR_PROTOCOL = 2], [SMTP_ERR_EOF = 1], [SMTP_ERR_TIME = 2]. *)

Definition sample_rcpts : list RECIPIENT :=
  [ mk_RECIPIENT 120 "" "alice@example.com";
    mk_RECIPIENT 0 "" "bob@example.com";
    mk_RECIPIENT 184 "carol@old.example" "carol@example.com" ].

Definition sample_request : DELIVER_REQUEST :=
  mk_DELIVER_REQUEST 0 "4F1C2A" 1000000 sample_rcpts None.

Definition sample_session : SMTP_SESSION :=
  mk_SMTP_SESSION "mx1.example.com[192.0.2.1]".

Definition sample_state (sess : option SMTP_SESSION) (final : Z)
  : SMTP_STATE :=
  mk_SMTP_STATE 7 sample_request sess 0 final 0.

Definition service_result (z : Z) : list event -> APPEND_ARGS -> Z :=
  fun _ _ => z.

Definition sample_trace_flags (f : Z) : Z := f.


Section Trouble.

(** Constants and macros of headers that are outside this module. *)
Variable MAIL_ERROR_PROTOCOL : Z.              (* mail_error.h *)
Variable SMTP_ERR_EOF SMTP_ERR_TIME : Z.       (* smtp_stream.h *)
Variable DEL_REQ_TRACE_FLAGS : Z -> Z.         (* deliver_request.h *)

(** The defer and bounce services. Their result may depend on everything
    that happened before the call, so each takes the history. *)
Variable defer_append bounce_append : list event -> APPEND_ARGS -> Z.

(** [smtp_check_code - check response code] *)
Definition smtp_check_code (state : SMTP_STATE) (code : Z) : SMTP_STATE :=
  if protocol_anomaly code
  then set_error_mask state (Z.lor (error_mask state) MAIL_ERROR_PROTOCOL)
  else state.

(** The argument list that all four routines build for a recipient. *)
Definition append_args (req : DELIVER_REQUEST) (rcpt : RECIPIENT)
    (relay why : string) : APPEND_ARGS :=
  {| a_flags := DEL_REQ_TRACE_FLAGS (flags req);
     a_queue_id := queue_id req;
     a_orig_rcpt := orig_addr rcpt;
     a_recipient := address rcpt;
     a_offset := offset rcpt;
     a_relay := relay;
     a_entered := arrival_time req;
     a_why := why |}.

(** [(soft_error ? defer_append : bounce_append) (...)]: the value it
    returns and the call it leaves in the history. *)
Definition append_call (soft_error : bool) (log : list event)
    (a : APPEND_ARGS) : Z * list event :=
  if soft_error
  then (defer_append log a, log ++ [Ev_defer_append a])
  else (bounce_append log a, log ++ [Ev_bounce_append a]).

(** Body of the recipient loop of [smtp_site_fail] and [smtp_mesg_fail]
    for one recipient that is not skipped. [relay] is the host name
    argument: [None] when evaluating it dereferences a null session. *)
Definition dispose_rcpt (soft_error : bool) (stream : Z)
    (req : DELIVER_REQUEST) (relay : option string) (why : string)
    (rcpt : RECIPIENT) (st : Z) (log : list event)
    : result (RECIPIENT * Z * list event) :=
  host <-- deref relay ;;
  let '(status, log1) :=
    append_call soft_error log (append_args req rcpt host why) in
  let '(rcpt', log2) :=
    if status =? 0
    then (set_offset rcpt 0,
          log1 ++ [Ev_deliver_completed stream (offset rcpt)])
    else (rcpt, log1) in
  Done (rcpt', Z.lor st status, log2).

(** [for (nrcpt = 0; nrcpt < request->rcpt_list.len; nrcpt++)] over the
    recipients that are left to visit; [st] is [state->status]. *)
Fixpoint dispose_loop (soft_error : bool) (stream : Z)
    (req : DELIVER_REQUEST) (relay : option string) (why : string)
    (rcpts : list RECIPIENT) (st : Z) (log : list event)
    : result (list RECIPIENT * Z * list event) :=
  match rcpts with
  | [] => Done ([], st, log)
  | rcpt :: rest =>
      if offset rcpt =? 0
      then
        r <-- dispose_loop soft_error stream req relay why rest st log ;;
        let '(rest', st', log') := r in
        Done (rcpt :: rest', st', log')
      else
        r1 <-- dispose_rcpt soft_error stream req relay why rcpt st log ;;
        let '(rcpt', st1, log1) := r1 in
        r <-- dispose_loop soft_error stream req relay why rest st1 log1 ;;
        let '(rest', st', log') := r in
        Done (rcpt' :: rest', st', log')
  end.

(** [smtp_site_fail - skip site, defer all recipients, or bounce all
    recipients]. [why] is the formatted text. *)
Definition smtp_site_fail (state : SMTP_STATE) (code : Z) (why : string)
    (log : list event) : result (Z * world) :=
  let req := request state in
  let soft_error := SMTP_SOFT code in
  w1 <--
    (if soft_error && (final_server state =? 0)
     then
       Done (set_status state (Z.lor (status state) (-1)),
             log ++ [Ev_msg_info (queue_id req) why])
     else
       let relay :=
         match session state with
         | Some s => namaddr s
         | None => "none"%string
         end in
       r <-- dispose_loop soft_error (src state) req (Some relay) why
               (rcpt_list req) (status state) log ;;
       let '(rcpts, st, log') := r in
       let req1 := set_rcpt_list req rcpts in
       let req2 :=
         if soft_error && bool_decide (hop_status req1 = None)
         then set_hop_status req1 (Some why)
         else req1 in
       Done (set_final_server
               (set_status (set_request state req2) st) 1, log')) ;;
  let '(state1, log1) := w1 in
  Done (-1, (smtp_check_code state1 code, log1)).

(** [smtp_mesg_fail - skip site, defer all recipients, or bounce all
    recipients]. The host name argument is [session->namaddr]. *)
Definition smtp_mesg_fail (state : SMTP_STATE) (code : Z) (why : string)
    (log : list event) : result (Z * world) :=
  let req := request state in
  let soft_error := SMTP_SOFT code in
  w1 <--
    (if soft_error && (final_server state =? 0)
     then
       Done (set_status state (Z.lor (status state) (-1)),
             log ++ [Ev_msg_info (queue_id req) why])
     else
       r <-- dispose_loop soft_error (src state) req
               (namaddr <$> session state) why
               (rcpt_list req) (status state) log ;;
       let '(rcpts, st, log') := r in
       Done (set_final_server
               (set_status (set_request state (set_rcpt_list req rcpts)) st)
               1, log')) ;;
  let '(state1, log1) := w1 in
  Done (-1, (smtp_check_code state1 code, log1)).

(** [smtp_rcpt_fail - skip, defer, or bounce recipient]. The [RECIPIENT *]
    argument points into [request->rcpt_list.info]: it is the index
    [nrcpt] of the recipient there, and reading through it when there is
    no such element is a fault. [vdefer_append] and [vbounce_append] are
    the [va_list] forms of the two services. *)
Definition smtp_rcpt_fail (state : SMTP_STATE) (code : Z) (nrcpt : nat)
    (why : string) (log : list event) : result world :=
  let req := request state in
  let soft_error := SMTP_SOFT code in
  r <--
    (if soft_error && (final_server state =? 0)
     then
       Done (state, -1, log ++ [Ev_msg_info (queue_id req) why])
     else
       rcpt <-- deref (rcpt_list req !! nrcpt) ;;
       s <-- deref (session state) ;;
       let '(status', log1) :=
         append_call soft_error log
           (append_args req rcpt (namaddr s) why) in
       if status' =? 0
       then
         Done (set_request state
                 (set_rcpt_list req
                    (<[nrcpt := set_offset rcpt 0]> (rcpt_list req))),
               status',
               log1 ++ [Ev_deliver_completed (src state) (offset rcpt)])
       else Done (state, status', log1)) ;;
  let '(state1, status', log1) := r in
  let state2 := smtp_check_code state1 code in
  Done (set_status state2 (Z.lor (status state2) status'), log1).

(** The recipient loop of [smtp_stream_except]: it calls [defer_append]
    and accumulates the result, nothing else. *)
Fixpoint defer_loop (req : DELIVER_REQUEST) (relay : option string)
    (why : string) (rcpts : list RECIPIENT) (st : Z) (log : list event)
    : result (Z * list event) :=
  match rcpts with
  | [] => Done (st, log)
  | rcpt :: rest =>
      if offset rcpt =? 0
      then defer_loop req relay why rest st log
      else
        host <-- deref relay ;;
        let a := append_args req rcpt host why in
        defer_loop req relay why rest
          (Z.lor st (defer_append log a)) (log ++ [Ev_defer_append a])
  end.

(** [smtp_stream_except - defer domain after I/O problem]. The [default]
    label of the [switch] calls [msg_panic], which does not return. *)
Definition smtp_stream_except (state : SMTP_STATE) (code : Z)
    (description : string) (log : list event) : result (Z * world) :=
  let req := request state in
  why <--
    (if code =? SMTP_ERR_EOF
     then
       s <-- deref (session state) ;;
       Done ("lost connection with " +:+ namaddr s
             +:+ " while " +:+ description)
     else if code =? SMTP_ERR_TIME
     then
       s <-- deref (session state) ;;
       Done ("conversation with " +:+ namaddr s
             +:+ " timed out while " +:+ description)
     else Panic code) ;;
  if final_server state =? 0
  then
    Done (-1, (set_status state (Z.lor (status state) (-1)),
               log ++ [Ev_msg_info (queue_id req) why]))
  else
    r <-- defer_loop req (namaddr <$> session state) why
            (rcpt_list req) (status state) log ;;
    let '(st, log') := r in
    Done (-1, (set_status state st, log')).

(** ** The module as a transition system *)

(** One call of one of the four routines by the protocol driver. *)
Inductive api_call : Type :=
  | Site_fail (code : Z) (why : string)
  | Mesg_fail (code : Z) (why : string)
  | Rcpt_fail (code : Z) (nrcpt : nat) (why : string)
  | Stream_except (code : Z) (description : string).

Definition step (c : api_call) (w : world) : result world :=
  match c with
  | Site_fail code why =>
      r <-- smtp_site_fail (fst w) code why (snd w) ;; Done (snd r)
  | Mesg_fail code why =>
      r <-- smtp_mesg_fail (fst w) code why (snd w) ;; Done (snd r)
  | Rcpt_fail code nrcpt why =>
      smtp_rcpt_fail (fst w) code nrcpt why (snd w)
  | Stream_except code description =>
      r <-- smtp_stream_except (fst w) code description (snd w) ;;
      Done (snd r)
  end.

(** The worlds that a sequence of calls goes through, the first one
    included; the sequence ends where a call does not return. *)
Fixpoint run_calls (cs : list api_call) (w : world) : list world :=
  w :: match cs with
       | [] => []
       | c :: cs' =>
           match step c w with
           | Done w' => run_calls cs' w'
           | _ => []
           end
       end.

(** Recipients that are done, and recipients that are left. *)
Definition finalized (rcpts : list RECIPIENT) : nat :=
  length (filter (fun r => offset r = 0) rcpts).

Definition pending (rcpts : list RECIPIENT) : nat :=
  length (filter (fun r => offset r <> 0) rcpts).

(** ** Vocabulary of the properties *)

(** The recipients of a world. *)
Definition rcpts_of (w : world) : list RECIPIENT := rcpt_list (request (fst w)).

(** The only change a recipient can undergo: a non-zero offset is cleared. *)
Definition marker_step (r r' : RECIPIENT) : Prop :=
  r' = r \/ (offset r <> 0 /\ r' = set_offset r 0).

(** The event and the result of the defer or bounce call on [a]. *)
Definition append_event (soft_error : bool) (a : APPEND_ARGS) : event :=
  if soft_error then Ev_defer_append a else Ev_bounce_append a.

Definition append_result (soft_error : bool) (log : list event)
    (a : APPEND_ARGS) : Z :=
  if soft_error then defer_append log a else bounce_append log a.

(** The queue file offset an external call is about, if any. *)
Definition event_offset (e : event) : option Z :=
  match e with
  | Ev_msg_info _ _ => None
  | Ev_defer_append a | Ev_bounce_append a => Some (a_offset a)
  | Ev_deliver_completed _ off => Some off
  end.

(** The host name an external call is given, if any. *)
Definition event_relay (e : event) : option string :=
  match e with
  | Ev_defer_append a | Ev_bounce_append a => Some (a_relay a)
  | _ => None
  end.

Definition is_completed (e : event) : bool :=
  match e with Ev_deliver_completed _ _ => true | _ => false end.

(** The disposition branch of the three response code routines: the
    [else] of [if (soft_error && state->final_server == 0)]. *)
Definition disposition_branch (state : SMTP_STATE) (code : Z) : bool :=
  negb (SMTP_SOFT code && (final_server state =? 0)).


(** The host name [smtp_site_fail] passes on:
    [session ? session->namaddr : "none"]. *)
Definition site_relay (state : SMTP_STATE) : string :=
  match session state with
  | Some s => namaddr s
  | None => "none"%string
  end.

(** The request after the recipient loop of [smtp_site_fail]: the
    recipients as the loop left them and the hop status of lines 212-213. *)
Definition site_request (soft_error : bool) (why : string)
    (req : DELIVER_REQUEST) (rcpts' : list RECIPIENT) : DELIVER_REQUEST :=
  let req1 := set_rcpt_list req rcpts' in
  if soft_error && bool_decide (hop_status req1 = None)
  then set_hop_status req1 (Some why)
  else req1.

(** The texts that [smtp_stream_except] composes. *)
Definition eof_why (host description : string) : string :=
  "lost connection with " +:+ host +:+ " while " +:+ description.

Definition time_why (host description : string) : string :=
  "conversation with " +:+ host +:+ " timed out while " +:+ description.


(** The cached hop status of a world. *)
Definition hop_of (w : world) : option string := hop_status (request (fst w)).

(** The [code] argument of a call. *)
Definition call_code (c : api_call) : Z :=
  match c with
  | Site_fail code _ | Mesg_fail code _ | Rcpt_fail code _ _
  | Stream_except code _ => code
  end.


(** Between the histories [log] and [log'] every defer or bounce call was
    given the host name [host]. *)
Definition relays_are (host : string) (log log' : list event) : Prop :=
  exists new,
    log' = log ++ new /\
    forall e h, e ∈ new -> event_relay e = Some h -> h = host.


(** Kinds of external calls. *)
Definition is_info (e : event) : bool :=
  match e with Ev_msg_info _ _ => true | _ => false end.

Definition is_defer (e : event) : bool :=
  match e with Ev_defer_append _ => true | _ => false end.

Definition is_bounce (e : event) : bool :=
  match e with Ev_bounce_append _ => true | _ => false end.

(** The routines that can raise the final server flag. *)
Definition is_site_or_mesg (c : api_call) : bool :=
  match c with
  | Site_fail _ _ | Mesg_fail _ _ => true
  | _ => false
  end.

(** The parts of a world that no routine assigns to. *)
Definition same_frame (w w' : world) : Prop :=
  src (fst w') = src (fst w) /\
  session (fst w') = session (fst w) /\
  flags (request (fst w')) = flags (request (fst w)) /\
  queue_id (request (fst w')) = queue_id (request (fst w)) /\
  arrival_time (request (fst w')) = arrival_time (request (fst w)) /\
  map orig_addr (rcpts_of w') = map orig_addr (rcpts_of w) /\
  map address (rcpts_of w') = map address (rcpts_of w).


(** A call of [smtp_rcpt_fail] that is given a recipient that is left: in
    the disposition branch the recipient at its index has a non-zero
    offset. The other three routines take no recipient. *)
Definition rcpt_call_pending (c : api_call) (w : world) : bool :=
  match c with
  | Rcpt_fail code nrcpt _ =>
      negb (disposition_branch (fst w) code) ||
      match rcpts_of w !! nrcpt with
      | Some r => negb (offset r =? 0)
      | None => false
      end
  | _ => true
  end.

(** Every call of a sequence, in the world where it is made, is such a
    call. *)
Fixpoint rcpt_calls_pending (cs : list api_call) (w : world) : bool :=
  match cs with
  | [] => true
  | c :: cs' =>
      rcpt_call_pending c w &&
      match step c w with
      | Done w' => rcpt_calls_pending cs' w'
      | _ => true
      end
  end.

(** From the world [w] to the world [w'] the external calls were about
    recipients that were left, and [deliver_completed] was called once for
    each recipient that became done. *)
Definition finalizes_pending_once (w w' : world) : Prop :=
  exists new,
    snd w' = snd w ++ new /\
    (forall e off, e ∈ new -> event_offset e = Some off -> off <> 0) /\
    (finalized (rcpts_of w)
     + length (filter (fun e => is_completed e = true) new))%nat
    = finalized (rcpts_of w').



(** ** Properties *)

Lemma check_code_final_server state code :
  final_server (smtp_check_code state code) = final_server state.
Proof. unfold smtp_check_code. by destruct (protocol_anomaly code). Qed.

Lemma check_code_request state code :
  request (smtp_check_code state code) = request state.
Proof. unfold smtp_check_code. by destruct (protocol_anomaly code). Qed.

Lemma check_code_status state code :
  status (smtp_check_code state code) = status state.
Proof. unfold smtp_check_code. by destruct (protocol_anomaly code). Qed.

Lemma check_code_session state code :
  session (smtp_check_code state code) = session state.
Proof. unfold smtp_check_code. by destruct (protocol_anomaly code). Qed.

Lemma check_code_src state code :
  src (smtp_check_code state code) = src state.
Proof. unfold smtp_check_code. by destruct (protocol_anomaly code). Qed.

Lemma check_code_error_mask state code :
  error_mask (smtp_check_code state code) =
  if protocol_anomaly code
  then Z.lor (error_mask state) MAIL_ERROR_PROTOCOL
  else error_mask state.
Proof. unfold smtp_check_code. by destruct (protocol_anomaly code). Qed.

Lemma append_call_eq soft_error log a :
  append_call soft_error log a =
  (append_result soft_error log a, log ++ [append_event soft_error a]).
Proof. unfold append_call, append_result, append_event. by destruct soft_error. Qed.

Lemma marker_step_refl r : marker_step r r.
Proof. by left. Qed.

Lemma marker_step_trans r1 r2 r3 :
  marker_step r1 r2 -> marker_step r2 r3 -> marker_step r1 r3.
Proof.
  intros [-> | [Hnz ->]] [-> | [Hnz' ->]]; unfold marker_step; auto.
Qed.

(** The loop body, read backwards from its result. *)
Lemma dispose_rcpt_inv soft_error stream req relay why r st log r' st' log' :
  dispose_rcpt soft_error stream req relay why r st log = Done (r', st', log') ->
  exists host,
    relay = Some host /\
    let a := append_args req r host why in
    let res := append_result soft_error log a in
    st' = Z.lor st res /\
    ((res = 0 /\ r' = set_offset r 0 /\
      log' = log ++ [append_event soft_error a;
                     Ev_deliver_completed stream (offset r)])
     \/ (res <> 0 /\ r' = r /\ log' = log ++ [append_event soft_error a])).
Proof.
  unfold dispose_rcpt. destruct relay as [host|]; simpl; [|done].
  rewrite append_call_eq. intros H. exists host. split; [done|]. simpl.
  destruct (append_result soft_error log (append_args req r host why) =? 0)
    eqn:E; simplify_eq; (split; [done|]).
  - left. apply Z.eqb_eq in E. by rewrite <- app_assoc.
  - right. by apply Z.eqb_neq in E.
Qed.

(** One round of the recipient loop, read backwards from its result. *)
Lemma dispose_loop_cons soft_error stream req relay why r rest st log
    rcpts' st' log' :
  dispose_loop soft_error stream req relay why (r :: rest) st log
    = Done (rcpts', st', log') ->
  (offset r = 0 /\
   exists rest', rcpts' = r :: rest' /\
     dispose_loop soft_error stream req relay why rest st log
       = Done (rest', st', log'))
  \/
  (offset r <> 0 /\
   exists r1 st1 log1 rest', rcpts' = r1 :: rest' /\
     dispose_rcpt soft_error stream req relay why r st log
       = Done (r1, st1, log1) /\
     dispose_loop soft_error stream req relay why rest st1 log1
       = Done (rest', st', log')).
Proof.
  simpl. destruct (offset r =? 0) eqn:E.
  - apply Z.eqb_eq in E.
    destruct (dispose_loop _ _ _ _ _ rest st log) as [[[rest' st1] log1]| |];
      simpl; intros H; simplify_eq.
    left. eauto.
  - apply Z.eqb_neq in E.
    destruct (dispose_rcpt _ _ _ _ _ r st log) as [[[r1 st1] log1]| |];
      simpl; [|done..].
    destruct (dispose_loop _ _ _ _ _ rest st1 log1) as [[[rest' st2] log2]| |]
      eqn:EL; simpl; intros H; simplify_eq.
    right. split; [done|]. by exists r1, st1, log1, rest'.
Qed.

(** The loop changes a recipient in one way only. *)
Lemma dispose_loop_markers soft_error stream req relay why rcpts :
  forall st log rcpts' st' log',
    dispose_loop soft_error stream req relay why rcpts st log
      = Done (rcpts', st', log') ->
    Forall2 marker_step rcpts rcpts'.
Proof.
  induction rcpts as [|r rest IH]; intros st log rcpts' st' log' H.
  - simpl in H. simplify_eq. constructor.
  - apply dispose_loop_cons in H
      as [(Hz & rest' & -> & H) | (Hnz & r1 & st1 & log1 & rest' & -> & Hr & H)].
    + constructor; [apply marker_step_refl | eauto].
    + constructor; [|eauto].
      apply dispose_rcpt_inv in Hr as (host & _ & _ & [(_ & -> & _) | (_ & -> & _)]).
      * by right.
      * by left.
Qed.

(** Every bit of the status stays: the loop only ever ors into it. *)
Lemma dispose_loop_status soft_error stream req relay why rcpts :
  forall st log rcpts' st' log',
    dispose_loop soft_error stream req relay why rcpts st log
      = Done (rcpts', st', log') ->
    forall y, Z.lor st y = st -> Z.lor st' y = st'.
Proof.
  induction rcpts as [|r rest IH]; intros st log rcpts' st' log' H y Hy.
  - simpl in H. by simplify_eq.
  - apply dispose_loop_cons in H
      as [(Hz & rest' & -> & H) | (Hnz & r1 & st1 & log1 & rest' & -> & Hr & H)].
    + eauto.
    + eapply IH; [exact H|].
      apply dispose_rcpt_inv in Hr as (host & _ & -> & _).
      by rewrite <- Z.lor_assoc, (Z.lor_comm _ y), Z.lor_assoc, Hy.
Qed.

(** With a host name to pass, the loop always runs to its end. *)
Lemma dispose_loop_total soft_error stream req host why rcpts :
  forall st log, exists r,
    dispose_loop soft_error stream req (Some host) why rcpts st log = Done r.
Proof.
  induction rcpts as [|r rest IH]; intros st log; simpl; [eauto|].
  destruct (offset r =? 0).
  - destruct (IH st log) as [[[rest' st1] log1] ->]. simpl. eauto.
  - unfold dispose_rcpt. simpl. rewrite append_call_eq.
    destruct (append_result _ _ _ =? 0); simpl.
    + edestruct IH as [[[rest' st1] log1] ->]. simpl. eauto.
    + edestruct IH as [[[rest' st1] log1] ->]. simpl. eauto.
Qed.

(** The calls the loop adds to the history: all of them are about a
    non-zero offset, the host name is the one given, and the first of them
    is not a completion. *)
Lemma dispose_loop_log soft_error stream req relay why rcpts :
  forall st log rcpts' st' log',
    dispose_loop soft_error stream req relay why rcpts st log
      = Done (rcpts', st', log') ->
    exists new,
      log' = log ++ new /\
      Forall (fun e =>
                (exists off, event_offset e = Some off /\ off <> 0) /\
                (forall h, event_relay e = Some h -> relay = Some h)) new /\
      (forall e, head new = Some e -> is_completed e = false).
Proof.
  induction rcpts as [|r rest IH]; intros st log rcpts' st' log' H.
  - simpl in H. simplify_eq. exists []. by rewrite app_nil_r.
  - apply dispose_loop_cons in H
      as [(Hz & rest' & -> & H) | (Hnz & r1 & st1 & log1 & rest' & -> & Hr & H)].
    + eauto.
    + apply IH in H as (new & -> & Hall & _).
      apply dispose_rcpt_inv in Hr as (host & -> & _ & Hcase). simpl in Hcase.
      assert (Hev : forall e, e = append_event soft_error
                                   (append_args req r host why) ->
                (exists off, event_offset e = Some off /\ off <> 0) /\
                (forall h, event_relay e = Some h -> Some host = Some h)).
      { intros e ->. destruct soft_error; simpl; split; eauto.
        all: intros h Hh; by simplify_eq. }
      assert (Hhd : is_completed
                (append_event soft_error (append_args req r host why)) = false)
        by (by destruct soft_error).
      destruct Hcase as [(_ & _ & ->) | (_ & _ & ->)].
      * eexists. rewrite <- app_assoc. split; [done|]. split.
        -- simpl. apply Forall_cons. split; [by apply Hev|].
           apply Forall_cons. split; [|done]. simpl. split; [eauto|done].
        -- simpl. intros e He. by simplify_eq.
      * eexists. rewrite <- app_assoc. split; [done|]. split.
        -- simpl. apply Forall_cons. split; [by apply Hev|done].
        -- simpl. intros e He. by simplify_eq.
Qed.



(** The recipient loop of [smtp_stream_except] hands every recipient with
    a non-zero offset to [defer_append], in order, and does nothing
    else. *)
Lemma defer_loop_spec req host why rcpts :
  forall st log, exists st',
    defer_loop req (Some host) why rcpts st log =
    Done (st',
          log ++ map (fun r => Ev_defer_append (append_args req r host why))
                     (filter (fun r => offset r <> 0) rcpts)) /\
    (forall y, Z.lor st y = st -> Z.lor st' y = st').
Proof.
  induction rcpts as [|r rest IH]; intros st log; simpl.
  - exists st. by rewrite app_nil_r.
  - destruct (offset r =? 0) eqn:E.
    + apply Z.eqb_eq in E. rewrite filter_cons_False by (intros ?; done).
      apply IH.
    + apply Z.eqb_neq in E. rewrite filter_cons_True by done. simpl.
      edestruct IH as (st' & -> & Habs). exists st'.
      rewrite <- app_assoc. split; [done|].
      intros y Hy. apply Habs.
      by rewrite <- Z.lor_assoc, (Z.lor_comm _ y), Z.lor_assoc, Hy.
Qed.

(** Without a session the loop stops at the first recipient it does not
    skip. *)
Lemma defer_loop_no_session req why rcpts st log :
  defer_loop req None why rcpts st log =
  if bool_decide (Forall (fun r => offset r = 0) rcpts)
  then Done (st, log) else Fault.
Proof.
  induction rcpts as [|r rest IH]; simpl; [done|].
  destruct (offset r =? 0) eqn:E.
  - apply Z.eqb_eq in E. rewrite IH.
    by rewrite (bool_decide_ext (Forall _ (r :: rest))
                  (Forall (fun r => offset r = 0) rest))
      by (rewrite Forall_cons; tauto).
  - apply Z.eqb_neq in E. simpl.
    rewrite bool_decide_eq_false_2; [done|].
    rewrite Forall_cons. tauto.
Qed.

Lemma dispose_loop_no_session soft_error stream req why rcpts st log :
  dispose_loop soft_error stream req None why rcpts st log =
  if bool_decide (Forall (fun r => offset r = 0) rcpts)
  then Done (rcpts, st, log) else Fault.
Proof.
  induction rcpts as [|r rest IH]; simpl; [done|].
  destruct (offset r =? 0) eqn:E.
  - apply Z.eqb_eq in E. rewrite IH.
    rewrite (bool_decide_ext (Forall _ (r :: rest)) (Forall (fun r => offset r = 0) rest))
      by (rewrite Forall_cons; tauto).
    by destruct (bool_decide _).
  - apply Z.eqb_neq in E. simpl.
    rewrite bool_decide_eq_false_2; [done|].
    rewrite Forall_cons. tauto.
Qed.

(** *** The four routines, branch by branch *)

Lemma site_fail_skip state code why log :
  disposition_branch state code = false ->
  smtp_site_fail state code why log =
  Done (-1, (smtp_check_code
               (set_status state (Z.lor (status state) (-1))) code,
             log ++ [Ev_msg_info (queue_id (request state)) why])).
Proof.
  unfold disposition_branch, smtp_site_fail. intros H.
  apply negb_false_iff in H. by rewrite H.
Qed.

Lemma site_fail_dispose state code why log :
  disposition_branch state code = true ->
  exists rcpts' st' log',
    dispose_loop (SMTP_SOFT code) (src state) (request state)
      (Some (site_relay state)) why (rcpt_list (request state))
      (status state) log = Done (rcpts', st', log') /\
    smtp_site_fail state code why log =
    Done (-1, (smtp_check_code
                 (set_final_server
                    (set_status
                       (set_request state
                          (site_request (SMTP_SOFT code) why
                             (request state) rcpts')) st') 1) code,
               log')).
Proof.
  unfold disposition_branch, smtp_site_fail. intros H.
  apply negb_true_iff in H. rewrite H.
  destruct (dispose_loop_total (SMTP_SOFT code) (src state) (request state)
              (site_relay state) why (rcpt_list (request state))
              (status state) log) as [[[rcpts' st'] log'] E].
  exists rcpts', st', log'. split; [done|].
  unfold site_relay in E. by rewrite E.
Qed.

Lemma mesg_fail_skip state code why log :
  disposition_branch state code = false ->
  smtp_mesg_fail state code why log =
  Done (-1, (smtp_check_code
               (set_status state (Z.lor (status state) (-1))) code,
             log ++ [Ev_msg_info (queue_id (request state)) why])).
Proof.
  unfold disposition_branch, smtp_mesg_fail. intros H.
  apply negb_false_iff in H. by rewrite H.
Qed.

Lemma mesg_fail_dispose state code why log :
  disposition_branch state code = true ->
  smtp_mesg_fail state code why log =
  (r <-- dispose_loop (SMTP_SOFT code) (src state) (request state)
           (namaddr <$> session state) why (rcpt_list (request state))
           (status state) log ;;
   Done (-1, (smtp_check_code
                (set_final_server
                   (set_status
                      (set_request state
                         (set_rcpt_list (request state) (r.1.1))) (r.1.2))
                   1) code,
              r.2))).
Proof.
  unfold disposition_branch, smtp_mesg_fail. intros H.
  apply negb_true_iff in H. rewrite H.
  by destruct (dispose_loop _ _ _ _ _ _ _ _) as [[[rcpts' st'] log']| |].
Qed.

Lemma rcpt_fail_skip state code nrcpt why log :
  disposition_branch state code = false ->
  smtp_rcpt_fail state code nrcpt why log =
  Done (set_status (smtp_check_code state code)
          (Z.lor (status (smtp_check_code state code)) (-1)),
        log ++ [Ev_msg_info (queue_id (request state)) why]).
Proof.
  unfold disposition_branch, smtp_rcpt_fail. intros H.
  apply negb_false_iff in H. by rewrite H.
Qed.

Lemma rcpt_fail_dispose state code nrcpt why log rcpt s :
  disposition_branch state code = true ->
  rcpt_list (request state) !! nrcpt = Some rcpt ->
  session state = Some s ->
  let soft_error := SMTP_SOFT code in
  let a := append_args (request state) rcpt (namaddr s) why in
  let res := append_result soft_error log a in
  smtp_rcpt_fail state code nrcpt why log =
  if res =? 0
  then
    let state1 :=
      smtp_check_code
        (set_request state
           (set_rcpt_list (request state)
              (<[nrcpt := set_offset rcpt 0]> (rcpt_list (request state)))))
        code in
    Done (set_status state1 (Z.lor (status state1) res),
          log ++ [append_event soft_error a;
                  Ev_deliver_completed (src state) (offset rcpt)])
  else
    let state1 := smtp_check_code state code in
    Done (set_status state1 (Z.lor (status state1) res),
          log ++ [append_event soft_error a]).
Proof.
  unfold disposition_branch, smtp_rcpt_fail. intros H Hr Hs.
  apply negb_true_iff in H. rewrite H, Hr, Hs. simpl.
  rewrite append_call_eq.
  destruct (append_result _ _ _ =? 0); simpl; [|done].
  by rewrite <- app_assoc.
Qed.

Lemma rcpt_fail_fault state code nrcpt why log :
  disposition_branch state code = true ->
  rcpt_list (request state) !! nrcpt = None \/ session state = None ->
  smtp_rcpt_fail state code nrcpt why log = Fault.
Proof.
  unfold disposition_branch, smtp_rcpt_fail. intros H Hn.
  apply negb_true_iff in H. rewrite H.
  destruct (rcpt_list (request state) !! nrcpt); simpl; [|done].
  destruct Hn as [Hn | ->]; [done|]. done.
Qed.

(** [smtp_stream_except] once the text is composed. *)
Lemma stream_except_known state code description log s :
  session state = Some s ->
  code = SMTP_ERR_EOF \/ code = SMTP_ERR_TIME ->
  exists why,
    (why = eof_why (namaddr s) description \/
     why = time_why (namaddr s) description) /\
    (code = SMTP_ERR_EOF -> why = eof_why (namaddr s) description) /\
    (code <> SMTP_ERR_EOF -> why = time_why (namaddr s) description) /\
    smtp_stream_except state code description log =
    if final_server state =? 0
    then Done (-1, (set_status state (Z.lor (status state) (-1)),
                    log ++ [Ev_msg_info (queue_id (request state)) why]))
    else
      r <-- defer_loop (request state) (Some (namaddr s)) why
              (rcpt_list (request state)) (status state) log ;;
      Done (-1, (set_status state (r.1), r.2)).
Proof.
  intros Hs Hc. unfold smtp_stream_except. rewrite Hs. simpl.
  destruct (code =? SMTP_ERR_EOF) eqn:E1.
  - apply Z.eqb_eq in E1. exists (eof_why (namaddr s) description).
    split; [by left|]. split; [done|]. split; [done|]. simpl.
    destruct (final_server state =? 0); [done|].
    by destruct (defer_loop _ _ _ _ _ _) as [[st' log']| |].
  - apply Z.eqb_neq in E1. destruct Hc as [?|Hc]; [done|].
    rewrite Hc, Z.eqb_refl. exists (time_why (namaddr s) description).
    split; [by right|]. split; [by rewrite <- Hc|]. split; [done|]. simpl.
    destruct (final_server state =? 0); [done|].
    by destruct (defer_loop _ _ _ _ _ _) as [[st' log']| |].
Qed.

Lemma stream_except_unknown state code description log :
  code <> SMTP_ERR_EOF -> code <> SMTP_ERR_TIME ->
  smtp_stream_except state code description log = Panic code.
Proof.
  intros H1 H2. unfold smtp_stream_except.
  apply Z.eqb_neq in H1, H2. by rewrite H1, H2.
Qed.

Lemma stream_except_no_session state code description log :
  session state = None ->
  code = SMTP_ERR_EOF \/ code = SMTP_ERR_TIME ->
  smtp_stream_except state code description log = Fault.
Proof.
  intros Hs Hc. unfold smtp_stream_except. rewrite Hs.
  destruct (code =? SMTP_ERR_EOF) eqn:E1; [done|].
  apply Z.eqb_neq in E1. destruct Hc as [?|Hc]; [done|].
  by rewrite Hc, Z.eqb_refl.
Qed.

(** *** The recipient list along a run *)

Lemma markers_refl (l : list RECIPIENT) : Forall2 marker_step l l.
Proof. apply Forall_Forall2_diag, Forall_forall. intros; apply marker_step_refl. Qed.

Lemma markers_trans (l1 l2 l3 : list RECIPIENT) :
  Forall2 marker_step l1 l2 -> Forall2 marker_step l2 l3 ->
  Forall2 marker_step l1 l3.
Proof.
  intros H. revert l3. induction H as [|x y l k Hxy _ IH]; intros l3 H3.
  - by inversion H3.
  - inversion H3 as [|y' z k' l3' Hyz Hk]; subst. constructor; [|eauto].
    by eapply marker_step_trans.
Qed.

Lemma marker_step_clear r : marker_step r (set_offset r 0).
Proof.
  destruct (decide (offset r = 0)) as [Hz|Hnz].
  - left. destruct r; simpl in *; by subst.
  - by right.
Qed.

Lemma finalized_pending (l : list RECIPIENT) :
  (finalized l + pending l = length l)%nat.
Proof.
  unfold finalized, pending. induction l as [|r l IH]; [done|].
  destruct (decide (offset r = 0)).
  - rewrite filter_cons_True, (filter_cons_False (fun r => offset r <> 0))
      by tauto.
    simpl. lia.
  - rewrite filter_cons_False, (filter_cons_True (fun r => offset r <> 0))
      by tauto.
    simpl. lia.
Qed.

(** One call changes the recipients by clearing offsets only. *)
Lemma step_markers c w w' :
  step c w = Done w' -> Forall2 marker_step (rcpts_of w) (rcpts_of w').
Proof.
  destruct w as [state log]. unfold rcpts_of.
  destruct c as [code why | code why | code nrcpt why | code description];
    simpl; intros H.
  - destruct (disposition_branch state code) eqn:B.
    + destruct (site_fail_dispose state code why log B)
        as (rcpts' & st' & log' & Hl & E).
      rewrite E in H. simpl in H. simplify_eq. simpl.
      rewrite check_code_request. simpl.
      apply dispose_loop_markers in Hl.
      unfold site_request. by destruct (_ && _).
    + rewrite (site_fail_skip state code why log B) in H. simpl in H.
      simplify_eq. simpl. rewrite check_code_request. apply markers_refl.
  - destruct (disposition_branch state code) eqn:B.
    + rewrite (mesg_fail_dispose state code why log B) in H.
      destruct (dispose_loop _ _ _ _ _ _ _ _) as [[[rcpts' st'] log']| |]
        eqn:Hl; simpl in H; simplify_eq.
      simpl. rewrite check_code_request. simpl.
      by apply dispose_loop_markers in Hl.
    + rewrite (mesg_fail_skip state code why log B) in H. simpl in H.
      simplify_eq. simpl. rewrite check_code_request. apply markers_refl.
  - destruct (disposition_branch state code) eqn:B.
    + destruct (rcpt_list (request state) !! nrcpt) as [rcpt|] eqn:Hr;
        [|rewrite rcpt_fail_fault in H by auto; done].
      destruct (session state) as [s|] eqn:Hs;
        [|rewrite rcpt_fail_fault in H by auto; done].
      rewrite (rcpt_fail_dispose state code nrcpt why log rcpt s B Hr Hs) in H.
      cbv zeta in H.
      destruct (append_result _ _ _ =? 0); simplify_eq; simpl;
        rewrite check_code_request; simpl; [|apply markers_refl].
      rewrite <- (list_insert_id _ _ _ Hr) at 1.
      apply Forall2_insert; [apply markers_refl | apply marker_step_clear].
    + rewrite (rcpt_fail_skip state code nrcpt why log B) in H.
      simplify_eq. simpl. rewrite check_code_request. apply markers_refl.
  - unfold smtp_stream_except in H.
    destruct (if code =? SMTP_ERR_EOF then _ else _) as [why| |];
      simpl in H; try done.
    destruct (final_server state =? 0); simpl in H.
    + simplify_eq. simpl. apply markers_refl.
    + destruct (defer_loop _ _ _ _ _ _) as [[st' log']| |]; simpl in H;
        simplify_eq.
      simpl. apply markers_refl.
Qed.

Lemma run_calls_markers cs :
  forall w (k : nat) wk,
    run_calls cs w !! k = Some wk ->
    Forall2 marker_step (rcpts_of w) (rcpts_of wk).
Proof.
  induction cs as [|c cs IH]; intros w k wk H; destruct k as [|k];
    simpl in H; simplify_eq; try apply markers_refl.
  destruct (step c w) as [w1| |] eqn:E; simpl in H; try done.
  eapply markers_trans; [by eapply step_markers | by eapply IH].
Qed.

(** What follows a world of a run is a run from that world. *)
Lemma run_calls_suffix cs :
  forall w (j : nat) wj,
    run_calls cs w !! j = Some wj ->
    exists cs', forall k : nat,
      run_calls cs w !! (j + k)%nat = run_calls cs' wj !! k.
Proof.
  induction cs as [|c cs IH]; intros w j wj H; destruct j as [|j];
    simpl in H; simplify_eq.
  - by exists [].
  - by exists (c :: cs).
  - destruct (step c w) as [w1| |] eqn:E; simpl in H; try done.
    destruct (IH _ _ _ H) as [cs' Hcs']. exists cs'. intros k.
    simpl. rewrite E. apply Hcs'.
Qed.

(** The calls that the three loops add to the history are all about a
    non-zero offset. *)
Lemma step_loop_events c w w' :
  (forall code nrcpt why, c <> Rcpt_fail code nrcpt why) ->
  step c w = Done w' ->
  exists new,
    snd w' = snd w ++ new /\
    forall e off, e ∈ new -> event_offset e = Some off -> off <> 0.
Proof.
  destruct w as [state log].
  destruct c as [code why | code why | code nrcpt why | code description];
    simpl; intros Hc H.
  - destruct (disposition_branch state code) eqn:B.
    + destruct (site_fail_dispose state code why log B)
        as (rcpts' & st' & log' & Hl & E).
      rewrite E in H. simpl in H. simplify_eq. simpl.
      apply dispose_loop_log in Hl as (new & -> & Hall & _).
      exists new. split; [done|]. intros e off He Hoff.
      rewrite Forall_forall in Hall.
      destruct (Hall e He) as [(off' & Hoff' & Hnz) _]. by simplify_eq.
    + rewrite (site_fail_skip state code why log B) in H. simpl in H.
      simplify_eq. simpl. eexists. split; [done|].
      intros e off He Hoff. apply list_elem_of_singleton in He. by subst.
  - destruct (disposition_branch state code) eqn:B.
    + rewrite (mesg_fail_dispose state code why log B) in H.
      destruct (dispose_loop _ _ _ _ _ _ _ _) as [[[rcpts' st'] log']| |]
        eqn:Hl; simpl in H; simplify_eq.
      simpl.
      apply dispose_loop_log in Hl as (new & -> & Hall & _).
      exists new. split; [done|]. intros e off He Hoff.
      rewrite Forall_forall in Hall.
      destruct (Hall e He) as [(off' & Hoff' & Hnz) _]. by simplify_eq.
    + rewrite (mesg_fail_skip state code why log B) in H. simpl in H.
      simplify_eq. simpl. eexists. split; [done|].
      intros e off He Hoff. apply list_elem_of_singleton in He. by subst.
  - by destruct (Hc code nrcpt why).
  - destruct (session state) as [s|] eqn:Hs.
    + destruct (decide (code = SMTP_ERR_EOF \/ code = SMTP_ERR_TIME))
        as [Hk|Hk].
      * destruct (stream_except_known state code description log s Hs Hk)
          as (why & _ & _ & _ & E).
        rewrite E in H. destruct (final_server state =? 0); simpl in H.
        -- simplify_eq. simpl. eexists. split; [done|].
           intros e off He Hoff. apply list_elem_of_singleton in He. by subst.
        -- destruct (defer_loop_spec (request state) (namaddr s) why
                       (rcpt_list (request state)) (status state) log)
             as (st' & El & _).
           rewrite El in H. simpl in H. simplify_eq. simpl.
           eexists. split; [done|]. intros e off He Hoff.
           apply list_elem_of_fmap in He as (r & -> & Hr).
           apply list_elem_of_filter in Hr as [Hnz _].
           simpl in Hoff. by simplify_eq.
      * rewrite stream_except_unknown in H by tauto. done.
    + unfold smtp_stream_except in H. rewrite Hs in H.
      destruct (code =? SMTP_ERR_EOF); [done|].
      destruct (code =? SMTP_ERR_TIME); done.
Qed.

(** Along every sequence of calls of the four routines, at every world
    the run goes through, the recipients that are done (offset 0) and the
    recipients that are left (offset not 0) add up to the number of
    recipients at the start; between an earlier and a later world a
    recipient is either unchanged or had its non-zero offset cleared, so a
    recipient that is done stays done; and every external call that the
    recipient loops of [smtp_site_fail], [smtp_mesg_fail] and
    [smtp_stream_except] make is about a recipient whose offset is not 0. *)
Lemma run_markers_and_loops (cs : list api_call) (w : world)
    (j k : nat) (wj wk : world) :
  run_calls cs w !! j = Some wj ->
  run_calls cs w !! k = Some wk ->
  (j <= k)%nat ->
  (finalized (rcpts_of wk) + pending (rcpts_of wk))%nat
    = length (rcpts_of w) /\
  (forall (i : nat) r, rcpts_of wj !! i = Some r ->
     exists r', rcpts_of wk !! i = Some r' /\ marker_step r r') /\
  (forall (i : nat) r, rcpts_of wj !! i = Some r -> offset r = 0 ->
     rcpts_of wk !! i = Some r) /\
  (forall c w',
     (forall code nrcpt why, c <> Rcpt_fail code nrcpt why) ->
     step c wk = Done w' ->
     exists new,
       snd w' = snd wk ++ new /\
       forall e off, e ∈ new -> event_offset e = Some off -> off <> 0).
Proof.
  intros Hj Hk Hjk.
  assert (Hjk' : Forall2 marker_step (rcpts_of wj) (rcpts_of wk)).
  { destruct (run_calls_suffix _ _ _ _ Hj) as [cs' Hcs'].
    replace k with (j + (k - j))%nat in Hk by lia.
    rewrite Hcs' in Hk. by eapply run_calls_markers. }
  split; [|split; [|split]].
  - rewrite finalized_pending. symmetry.
    eapply Forall2_length, run_calls_markers, Hk.
  - intros i r Hi. by eapply Forall2_lookup_l.
  - intros i r Hi Hz.
    destruct (Forall2_lookup_l _ _ _ _ _ Hjk' Hi)
      as (r' & Hr' & [-> | [Hnz _]]); done.
  - intros c w'. apply step_loop_events.
Qed.

(** *** The scalar members of the state after one call *)

Lemma mesg_fail_total state code why log s :
  session state = Some s ->
  disposition_branch state code = true ->
  exists rcpts' st' log',
    dispose_loop (SMTP_SOFT code) (src state) (request state)
      (Some (namaddr s)) why (rcpt_list (request state))
      (status state) log = Done (rcpts', st', log') /\
    smtp_mesg_fail state code why log =
    Done (-1, (smtp_check_code
                 (set_final_server
                    (set_status
                       (set_request state
                          (set_rcpt_list (request state) rcpts')) st') 1)
                 code,
               log')).
Proof.
  intros Hs B. rewrite (mesg_fail_dispose state code why log B), Hs. simpl.
  destruct (dispose_loop_total (SMTP_SOFT code) (src state) (request state)
              (namaddr s) why (rcpt_list (request state))
              (status state) log) as [[[rcpts' st'] log'] E].
  exists rcpts', st', log'. split; [done|]. by rewrite E.
Qed.

Lemma step_fields c w w' :
  step c w = Done w' ->
  final_server (fst w') =
    match c with
    | Site_fail code _ | Mesg_fail code _ =>
        if disposition_branch (fst w) code then 1 else final_server (fst w)
    | _ => final_server (fst w)
    end /\
  error_mask (fst w') =
    match c with
    | Stream_except _ _ => error_mask (fst w)
    | _ =>
        if protocol_anomaly (call_code c)
        then Z.lor (error_mask (fst w)) MAIL_ERROR_PROTOCOL
        else error_mask (fst w)
    end /\
  hop_of w' =
    match c with
    | Site_fail code why =>
        if disposition_branch (fst w) code && SMTP_SOFT code
           && bool_decide (hop_of w = None)
        then Some why else hop_of w
    | _ => hop_of w
    end /\
  session (fst w') = session (fst w) /\
  src (fst w') = src (fst w).
Proof.
  destruct w as [state log]. unfold hop_of.
  destruct c as [code why | code why | code nrcpt why | code description];
    simpl; intros H.
  - destruct (disposition_branch state code) eqn:B.
    + destruct (site_fail_dispose state code why log B)
        as (rcpts' & st' & log' & Hl & E).
      rewrite E in H. simpl in H. simplify_eq. simpl.
      rewrite check_code_final_server, check_code_error_mask,
        check_code_request, check_code_session, check_code_src. simpl.
      repeat split; try done.
      unfold site_request. simpl. by destruct (_ && _).
    + rewrite (site_fail_skip state code why log B) in H. simpl in H.
      simplify_eq. simpl.
      by rewrite check_code_final_server, check_code_error_mask,
        check_code_request, check_code_session, check_code_src.
  - destruct (disposition_branch state code) eqn:B.
    + rewrite (mesg_fail_dispose state code why log B) in H.
      destruct (dispose_loop _ _ _ _ _ _ _ _) as [[[rcpts' st'] log']| |]
        eqn:Hl; simpl in H; simplify_eq.
      simpl.
      by rewrite check_code_final_server, check_code_error_mask,
        check_code_request, check_code_session, check_code_src.
    + rewrite (mesg_fail_skip state code why log B) in H. simpl in H.
      simplify_eq. simpl.
      by rewrite check_code_final_server, check_code_error_mask,
        check_code_request, check_code_session, check_code_src.
  - destruct (disposition_branch state code) eqn:B.
    + destruct (rcpt_list (request state) !! nrcpt) as [rcpt|] eqn:Hr;
        [|rewrite rcpt_fail_fault in H by auto; done].
      destruct (session state) as [s|] eqn:Hs;
        [|rewrite rcpt_fail_fault in H by auto; done].
      rewrite (rcpt_fail_dispose state code nrcpt why log rcpt s B Hr Hs) in H.
      cbv zeta in H.
      destruct (append_result _ _ _ =? 0); simplify_eq; simpl;
        by rewrite check_code_final_server, check_code_error_mask,
          check_code_request, check_code_session, check_code_src.
    + rewrite (rcpt_fail_skip state code nrcpt why log B) in H.
      simplify_eq. simpl.
      by rewrite check_code_final_server, check_code_error_mask,
        check_code_request, check_code_session, check_code_src.
  - unfold smtp_stream_except in H.
    destruct (if code =? SMTP_ERR_EOF then _ else _) as [why| |];
      simpl in H; try done.
    destruct (final_server state =? 0); simpl in H.
    + by simplify_eq.
    + destruct (defer_loop _ _ _ _ _ _) as [[st' log']| |]; simpl in H;
        by simplify_eq.
Qed.

(** C2. The final server flag only goes up: a call of any of the four
    routines either leaves the flag as it was or sets it to 1, so a flag
    that is set (non-zero) before the call is set after it. *)
Theorem final_server_monotonic (c : api_call) (w w' : world) :
  step c w = Done w' ->
  (final_server (fst w') = final_server (fst w) \/
   final_server (fst w') = 1) /\
  (final_server (fst w) <> 0 -> final_server (fst w') <> 0).
Proof.
  intros H. apply step_fields in H as (Hfs & _).
  assert (Hor : final_server (fst w') = final_server (fst w) \/
                final_server (fst w') = 1).
  { rewrite Hfs. destruct c; auto; destruct (disposition_branch _ _); auto. }
  split; [done|]. intros Hnz. destruct Hor as [-> | ->]; [done | lia].
Qed.

(** The same along a whole sequence of calls. *)
Lemma final_server_stays_set cs :
  forall w (k : nat) wk,
    final_server (fst w) <> 0 ->
    run_calls cs w !! k = Some wk ->
    final_server (fst wk) <> 0.
Proof.
  induction cs as [|c cs IH]; intros w k wk Hnz H; destruct k as [|k];
    simpl in H; simplify_eq; try done.
  destruct (step c w) as [w1| |] eqn:E; simpl in H; try done.
  eapply IH; [|exact H].
  apply step_fields in E as (Hfs & _). rewrite Hfs.
  destruct c; try done; destruct (disposition_branch _ _); done.
Qed.

(** C3. [smtp_rcpt_fail] leaves the final server flag as it is, whatever
    the code; [smtp_site_fail] and [smtp_mesg_fail] set the flag to 1
    whenever they take the disposition branch, which they do whenever the
    code is hard or the flag is set on entry. *)
Theorem final_server_frame (state : SMTP_STATE) (code : Z) (why : string)
    (log : list event) :
  (forall nrcpt w',
     smtp_rcpt_fail state code nrcpt why log = Done w' ->
     final_server (fst w') = final_server state) /\
  (disposition_branch state code = true ->
     exists w',
       smtp_site_fail state code why log = Done (-1, w') /\
       final_server (fst w') = 1) /\
  (disposition_branch state code = true ->
     forall ret w',
       smtp_mesg_fail state code why log = Done (ret, w') ->
       final_server (fst w') = 1) /\
  (disposition_branch state code = true ->
     forall s, session state = Some s ->
     exists w',
       smtp_mesg_fail state code why log = Done (-1, w') /\
       final_server (fst w') = 1) /\
  (SMTP_HARD code = true \/ final_server state <> 0 ->
     disposition_branch state code = true).
Proof.
  split; [|split; [|split; [|split]]].
  - intros nrcpt w' H.
    by apply (step_fields (Rcpt_fail code nrcpt why) (state, log)) in H
      as (-> & _).
  - intros B.
    destruct (site_fail_dispose state code why log B)
      as (rcpts' & st' & log' & _ & E).
    eexists. split; [exact E|]. simpl. by rewrite check_code_final_server.
  - intros B ret w' H.
    assert (Hs : step (Mesg_fail code why) (state, log) = Done w')
      by (simpl; by rewrite H).
    apply step_fields in Hs as (-> & _). simpl. by rewrite B.
  - intros B s Hs.
    destruct (mesg_fail_total state code why log s Hs B)
      as (rcpts' & st' & log' & _ & E).
    eexists. split; [exact E|]. simpl. by rewrite check_code_final_server.
  - unfold disposition_branch, SMTP_HARD, SMTP_SOFT.
    intros [Hh | Hfs].
    + apply Z.eqb_eq in Hh. rewrite Hh. done.
    + apply Z.eqb_neq in Hfs. rewrite Hfs. by rewrite andb_false_r.
Qed.

(** C8, as the code has it. [smtp_site_fail], [smtp_mesg_fail] and
    [smtp_rcpt_fail] pass the code to [smtp_check_code] on every call, in
    both branches: the error mask gets the protocol error bit when the
    code is an anomaly and is unchanged otherwise. [smtp_stream_except]
    does not check its code: it never changes the error mask. *)
Theorem error_mask_after_call (c : api_call) (w w' : world) :
  step c w = Done w' ->
  error_mask (fst w') =
    match c with
    | Stream_except _ _ => error_mask (fst w)
    | _ =>
        Z.lor (error_mask (fst w))
          (if protocol_anomaly (call_code c) then MAIL_ERROR_PROTOCOL else 0)
    end.
Proof.
  intros H. apply step_fields in H as (_ & -> & _).
  destruct c; try done; destruct (protocol_anomaly _); try done;
    by rewrite Z.lor_0_r.
Qed.

(** C9. The hop status is written by [smtp_site_fail] only, in its
    disposition branch only, for a soft code only and only when nothing is
    cached yet; in that case the text of the call is cached.
    [smtp_mesg_fail] never writes it. *)
Theorem hop_status_first_write_wins (w : world) :
  (forall c w',
     step c w = Done w' -> hop_of w' <> hop_of w ->
     exists code why,
       c = Site_fail code why /\
       disposition_branch (fst w) code = true /\
       SMTP_SOFT code = true /\
       hop_of w = None /\ hop_of w' = Some why) /\
  (forall code why,
     SMTP_SOFT code = true -> final_server (fst w) <> 0 ->
     hop_of w = None ->
     exists w',
       step (Site_fail code why) w = Done w' /\ hop_of w' = Some why) /\
  (forall code why w',
     step (Mesg_fail code why) w = Done w' -> hop_of w' = hop_of w).
Proof.
  split; [|split].
  - intros c w' H Hne. apply step_fields in H as (_ & _ & Hhop & _).
    destruct c as [code why | | |]; try done.
    exists code, why. rewrite Hhop in *.
    destruct (disposition_branch (fst w) code); simpl in *; [|done].
    destruct (SMTP_SOFT code); simpl in *; [|done].
    destruct (bool_decide (hop_of w = None)) eqn:Hd; [|done].
    apply bool_decide_eq_true in Hd. done.
  - intros code why Hsoft Hfs Hnone.
    assert (B : disposition_branch (fst w) code = true).
    { unfold disposition_branch. apply Z.eqb_neq in Hfs.
      by rewrite Hfs, andb_false_r. }
    destruct w as [state log].
    destruct (site_fail_dispose state code why log B)
      as (rcpts' & st' & log' & _ & E).
    eexists. split; [simpl; rewrite E; done|].
    unfold hop_of in *. simpl in *. rewrite check_code_request. simpl.
    unfold site_request. simpl. rewrite Hsoft, Hnone. done.
  - intros code why w' H. by apply step_fields in H as (_ & _ & -> & _).
Qed.

(** *** Stream exceptions *)

(** C5, as the code has it. For both known exception codes and with a
    session: when the final server flag is 0 the routine logs the composed
    text and leaves the request, and so every offset, as it is; when the
    flag is set it calls [defer_append], and no other service, once for
    every recipient with a non-zero offset, in order, with the text
    composed from the session name and the description, and again leaves
    the request and every offset as it is, whatever [defer_append]
    returns; with any other code it panics. *)
Theorem stream_except_policy (state : SMTP_STATE) (code : Z)
    (description : string) (log : list event) (s : SMTP_SESSION) :
  session state = Some s ->
  (code = SMTP_ERR_EOF \/ code = SMTP_ERR_TIME ->
   exists why,
     (code = SMTP_ERR_EOF -> why = eof_why (namaddr s) description) /\
     (code <> SMTP_ERR_EOF -> why = time_why (namaddr s) description) /\
     (final_server state = 0 ->
        smtp_stream_except state code description log =
        Done (-1, (set_status state (Z.lor (status state) (-1)),
                   log ++ [Ev_msg_info (queue_id (request state)) why]))) /\
     (final_server state <> 0 ->
        exists st',
          smtp_stream_except state code description log =
          Done (-1,
                (set_status state st',
                 log ++
                 map (fun r => Ev_defer_append
                                 (append_args (request state) r
                                    (namaddr s) why))
                     (filter (fun r => offset r <> 0)
                        (rcpt_list (request state))))))) /\
  (code <> SMTP_ERR_EOF -> code <> SMTP_ERR_TIME ->
   smtp_stream_except state code description log = Panic code).
Proof.
  intros Hs. split.
  - intros Hk.
    destruct (stream_except_known state code description log s Hs Hk)
      as (why & _ & H1 & H2 & E).
    exists why. split; [done|]. split; [done|]. split.
    + intros Hfs. by rewrite E, Hfs.
    + intros Hfs. apply Z.eqb_neq in Hfs. rewrite E, Hfs.
      destruct (defer_loop_spec (request state) (namaddr s) why
                  (rcpt_list (request state)) (status state) log)
        as (st' & El & _).
      exists st'. by rewrite El.
  - apply stream_except_unknown.
Qed.

(** *** Defer or bounce of a recipient *)




(** *** The session argument *)

Lemma relays_are_info host log id text :
  relays_are host log (log ++ [Ev_msg_info id text]).
Proof.
  eexists. split; [done|]. intros e h He Hh.
  apply list_elem_of_singleton in He. by subst.
Qed.

Lemma dispose_loop_relays soft_error stream req host why rcpts st log
    rcpts' st' log' :
  dispose_loop soft_error stream req (Some host) why rcpts st log
    = Done (rcpts', st', log') ->
  relays_are host log log'.
Proof.
  intros H. apply dispose_loop_log in H as (new & -> & Hall & _).
  exists new. split; [done|]. intros e h He Hh.
  rewrite Forall_forall in Hall. destruct (Hall e He) as [_ Hr].
  specialize (Hr h Hh). by simplify_eq.
Qed.

(** [smtp_site_fail] returns whatever the session pointer is, and
    without a session the host name it passes to the defer or bounce
    service is ["none"]. The other three routines read the name through
    the session pointer without a test: with a session they return (for
    [smtp_rcpt_fail] given a recipient of the request, for
    [smtp_stream_except] given a known exception code) and pass the name
    of the session; without one, [smtp_mesg_fail] faults as soon as it has
    a recipient to defer or bounce, [smtp_rcpt_fail] faults in its
    disposition branch, and [smtp_stream_except] faults on every known
    exception code. *)
Lemma session_cases (state : SMTP_STATE) (code : Z) (why : string)
    (kind : Z) (description : string) (log : list event) :
  (exists w',
     smtp_site_fail state code why log = Done (-1, w') /\
     relays_are (site_relay state) log (snd w')) /\
  (session state = None -> site_relay state = "none"%string) /\
  (forall s, session state = Some s ->
     site_relay state = namaddr s /\
     (exists w',
        smtp_mesg_fail state code why log = Done (-1, w') /\
        relays_are (namaddr s) log (snd w')) /\
     (forall nrcpt : nat,
        is_Some (rcpt_list (request state) !! nrcpt) \/
        disposition_branch state code = false ->
        exists w',
          smtp_rcpt_fail state code nrcpt why log = Done w' /\
          relays_are (namaddr s) log (snd w')) /\
     (kind = SMTP_ERR_EOF \/ kind = SMTP_ERR_TIME ->
        exists w',
          smtp_stream_except state kind description log = Done (-1, w') /\
          relays_are (namaddr s) log (snd w'))) /\
  (session state = None ->
     (smtp_mesg_fail state code why log = Fault <->
        disposition_branch state code = true /\
        exists r, r ∈ rcpt_list (request state) /\ offset r <> 0) /\
     (forall nrcpt : nat,
        disposition_branch state code = true ->
        smtp_rcpt_fail state code nrcpt why log = Fault) /\
     (kind = SMTP_ERR_EOF \/ kind = SMTP_ERR_TIME ->
        smtp_stream_except state kind description log = Fault)).
Proof.
  split; [|split; [|split]].
  - destruct (disposition_branch state code) eqn:B.
    + destruct (site_fail_dispose state code why log B)
        as (rcpts' & st' & log' & Hl & E).
      eexists. split; [exact E|]. simpl. by eapply dispose_loop_relays.
    + rewrite (site_fail_skip state code why log B). eexists.
      split; [done|]. apply relays_are_info.
  - unfold site_relay. by intros ->.
  - intros s Hs. split; [by unfold site_relay; rewrite Hs|].
    split; [|split].
    + destruct (disposition_branch state code) eqn:B.
      * destruct (mesg_fail_total state code why log s Hs B)
          as (rcpts' & st' & log' & Hl & E).
        eexists. split; [exact E|]. simpl. by eapply dispose_loop_relays.
      * rewrite (mesg_fail_skip state code why log B). eexists.
        split; [done|]. apply relays_are_info.
    + intros nrcpt Hn. destruct (disposition_branch state code) eqn:B.
      * destruct Hn as [[r Hr] | ?]; [|done].
        rewrite (rcpt_fail_dispose state code nrcpt why log r s B Hr Hs).
        cbv zeta. destruct (append_result _ _ _ =? 0).
        -- eexists. split; [done|]. simpl. eexists. split; [done|].
           intros e h He Hh.
           apply elem_of_cons in He as [-> | He].
           ++ destruct (SMTP_SOFT code); simpl in Hh; by simplify_eq.
           ++ apply list_elem_of_singleton in He. by subst.
        -- eexists. split; [done|]. simpl. eexists. split; [done|].
           intros e h He Hh. apply list_elem_of_singleton in He. subst.
           destruct (SMTP_SOFT code); simpl in Hh; by simplify_eq.
      * rewrite (rcpt_fail_skip state code nrcpt why log B). eexists.
        split; [done|]. apply relays_are_info.
    + intros Hk.
      destruct (stream_except_known state kind description log s Hs Hk)
        as (txt & _ & _ & _ & E).
      rewrite E. destruct (final_server state =? 0).
      * eexists. split; [done|]. apply relays_are_info.
      * destruct (defer_loop_spec (request state) (namaddr s) txt
                    (rcpt_list (request state)) (status state) log)
          as (st' & -> & _).
        simpl. eexists. split; [done|]. simpl. eexists. split; [done|].
        intros e h He Hh.
        apply list_elem_of_fmap in He as (r & -> & _).
        simpl in Hh. by simplify_eq.
  - intros Hs. split; [|split].
    + destruct (disposition_branch state code) eqn:B.
      * rewrite (mesg_fail_dispose state code why log B), Hs. simpl.
        rewrite dispose_loop_no_session.
        destruct (bool_decide _) eqn:Hd; simpl.
        -- apply bool_decide_eq_true in Hd. split; [done|].
           intros (_ & r & Hr & Hnz). rewrite Forall_forall in Hd.
           by destruct Hnz; apply Hd.
        -- apply bool_decide_eq_false in Hd. split; [|done]. intros _.
           split; [done|]. apply not_Forall_Exists in Hd; [|apply _].
           apply Exists_exists in Hd as (r & Hr & Hnz). eauto.
      * rewrite (mesg_fail_skip state code why log B).
        split; [done | by intros [? _]].
    + intros nrcpt B. apply rcpt_fail_fault; auto.
    + by apply stream_except_no_session.
Qed.

(** *** More on single calls and on runs *)

(** Case analysis on a call that returned: the branch it took, with the
    result of its recipient loop where it has one. *)
Ltac step_cases state log c H :=
  destruct c as [code why | code why | code nrcpt why | code description];
  simpl in H;
  [ destruct (disposition_branch state code) eqn:B;
    [ destruct (site_fail_dispose state code why log B)
        as (rcpts' & st' & log' & Hl & E);
      rewrite E in H; simpl in H; simplify_eq
    | rewrite (site_fail_skip state code why log B) in H; simpl in H;
      simplify_eq ]
  | destruct (disposition_branch state code) eqn:B;
    [ rewrite (mesg_fail_dispose state code why log B) in H;
      destruct (dispose_loop _ _ _ _ _ _ _ _) as [[[rcpts' st'] log']| |]
        eqn:Hl; simpl in H; simplify_eq
    | rewrite (mesg_fail_skip state code why log B) in H; simpl in H;
      simplify_eq ]
  | destruct (disposition_branch state code) eqn:B;
    [ destruct (rcpt_list (request state) !! nrcpt) as [rcpt|] eqn:Hr;
        [|rewrite rcpt_fail_fault in H by auto; done];
      destruct (session state) as [s|] eqn:Hs;
        [|rewrite rcpt_fail_fault in H by auto; done];
      rewrite (rcpt_fail_dispose state code nrcpt why log rcpt s B Hr Hs) in H;
      cbv zeta in H;
      destruct (append_result _ _ _ =? 0) eqn:Eres; simplify_eq
    | rewrite (rcpt_fail_skip state code nrcpt why log B) in H;
      simplify_eq ]
  | destruct (session state) as [s|] eqn:Hs;
    [ destruct (decide (code = SMTP_ERR_EOF \/ code = SMTP_ERR_TIME))
        as [Hk|Hk];
      [ destruct (stream_except_known state code description log s Hs Hk)
          as (why & Hwhy & _ & _ & E);
        rewrite E in H; destruct (final_server state =? 0) eqn:Efs;
        simpl in H;
        [ simplify_eq
        | destruct (defer_loop_spec (request state) (namaddr s) why
                      (rcpt_list (request state)) (status state) log)
            as (st' & El & Habs);
          rewrite El in H; simpl in H; simplify_eq ]
      | rewrite stream_except_unknown in H by tauto; done ]
    | unfold smtp_stream_except in H; rewrite Hs in H;
      destruct (code =? SMTP_ERR_EOF); [done|];
      destruct (code =? SMTP_ERR_TIME); done ] ].

Lemma lor_absorb_self st st' :
  (forall y, Z.lor st y = st -> Z.lor st' y = st') -> Z.lor st' st = st'.
Proof. intros H. apply H, Z.lor_diag. Qed.

(** One call keeps every bit of the status. *)
Lemma step_status c w w' :
  step c w = Done w' ->
  Z.lor (status (fst w')) (status (fst w)) = status (fst w').
Proof.
  destruct w as [state log]. intros H. step_cases state log c H; simpl;
    rewrite ?check_code_status; simpl.
  - eapply lor_absorb_self, dispose_loop_status, Hl.
  - by rewrite <- Z.lor_assoc, (Z.lor_comm (-1)), Z.lor_assoc, Z.lor_diag.
  - eapply lor_absorb_self, dispose_loop_status, Hl.
  - by rewrite <- Z.lor_assoc, (Z.lor_comm (-1)), Z.lor_assoc, Z.lor_diag.
  - by rewrite <- Z.lor_assoc, (Z.lor_comm _ (status state)), Z.lor_assoc,
      Z.lor_diag.
  - by rewrite <- Z.lor_assoc, (Z.lor_comm _ (status state)), Z.lor_assoc,
      Z.lor_diag.
  - by rewrite <- Z.lor_assoc, (Z.lor_comm (-1)), Z.lor_assoc, Z.lor_diag.
  - by rewrite <- Z.lor_assoc, (Z.lor_comm (-1)), Z.lor_assoc, Z.lor_diag.
  - by apply lor_absorb_self.
Qed.

(** A property of pairs of worlds that every call of a given kind
    establishes holds between any two worlds of a run of such calls. *)
Lemma run_calls_reach (P : api_call -> Prop) (R : world -> world -> Prop) :
  (forall w, R w w) ->
  (forall a b c, R a b -> R b c -> R a c) ->
  (forall c w w', P c -> step c w = Done w' -> R w w') ->
  forall cs w (k : nat) wk,
    Forall P cs -> run_calls cs w !! k = Some wk -> R w wk.
Proof.
  intros Hrefl Htrans Hstep.
  induction cs as [|c cs IH]; intros w k wk HP H; destruct k as [|k];
    simpl in H; simplify_eq; try apply Hrefl.
  destruct (step c w) as [w1| |] eqn:E; simpl in H; try done.
  apply Forall_cons in HP as [Hc HP].
  eapply Htrans; [by eapply Hstep | by eapply IH].
Qed.

Lemma run_calls_between (P : api_call -> Prop) (R : world -> world -> Prop) :
  (forall w, R w w) ->
  (forall a b c, R a b -> R b c -> R a c) ->
  (forall c w w', P c -> step c w = Done w' -> R w w') ->
  forall cs w (j k : nat) wj wk,
    Forall P cs ->
    run_calls cs w !! j = Some wj -> run_calls cs w !! k = Some wk ->
    (j <= k)%nat -> R wj wk.
Proof.
  intros Hrefl Htrans Hstep.
  induction cs as [|c cs IH]; intros w j k wj wk HP Hj Hk Hjk.
  - destruct j as [|j]; simpl in Hj; simplify_eq.
    destruct k as [|k]; simpl in Hk; simplify_eq. apply Hrefl.
  - destruct j as [|j].
    + simpl in Hj. simplify_eq.
      by eapply (run_calls_reach P R Hrefl Htrans Hstep (c :: cs)).
    + destruct k as [|k]; [lia|]. simpl in Hj, Hk.
      destruct (step c w) as [w1| |] eqn:E; simpl in Hj; try done.
      apply Forall_cons in HP as [_ HP].
      eapply (IH w1 j k); eauto with lia.
Qed.

Lemma Forall_any_call (cs : list api_call) : Forall (fun _ => True) cs.
Proof. by apply Forall_forall. Qed.

(** X1. The cumulative status only gains bits: between an earlier and a
    later world of any run every bit set in the status is still set, so a
    status of -1 (the mark of a skipped host or recipient) stays -1 and a
    non-zero status never returns to 0. *)
Theorem status_bits_kept (cs : list api_call) (w : world) (j k : nat)
    (wj wk : world) :
  run_calls cs w !! j = Some wj ->
  run_calls cs w !! k = Some wk ->
  (j <= k)%nat ->
  Z.lor (status (fst wk)) (status (fst wj)) = status (fst wk) /\
  (status (fst wj) = -1 -> status (fst wk) = -1) /\
  (status (fst wj) <> 0 -> status (fst wk) <> 0).
Proof.
  intros Hj Hk Hjk.
  assert (H : Z.lor (status (fst wk)) (status (fst wj)) = status (fst wk)).
  { eapply (run_calls_between (fun _ => True)
              (fun a b => Z.lor (status (fst b)) (status (fst a))
                          = status (fst b)));
      eauto using Forall_any_call.
    - intros a. apply Z.lor_diag.
    - intros a b c Hab Hbc. simpl in *.
      by rewrite <- Hbc, <- Z.lor_assoc, Hab.
    - intros c w0 w0' _. apply step_status. }
  split; [done|]. split.
  - intros Hm. rewrite Hm in H. by rewrite Z.lor_m1_r in H.
  - intros Hnz Hz. rewrite Hz in H. simpl in H. done.
Qed.

Lemma markers_addresses (l l' : list RECIPIENT) :
  Forall2 marker_step l l' ->
  map orig_addr l' = map orig_addr l /\ map address l' = map address l.
Proof.
  induction 1 as [|r r' l l' Hr _ [IH1 IH2]]; [done|].
  simpl. rewrite IH1, IH2. by destruct Hr as [-> | [_ ->]].
Qed.

Lemma step_frame c w w' : step c w = Done w' -> same_frame w w'.
Proof.
  intros H. unfold same_frame.
  destruct (step_fields c w w' H) as (_ & _ & _ & Hs & Hsrc).
  destruct (markers_addresses _ _ (step_markers c w w' H)) as [Ho Ha].
  split; [done|]. split; [done|].
  assert (flags (request (fst w')) = flags (request (fst w)) /\
          queue_id (request (fst w')) = queue_id (request (fst w)) /\
          arrival_time (request (fst w')) = arrival_time (request (fst w)))
    as (? & ? & ?); [|done].
  clear Hs Hsrc Ho Ha. destruct w as [state log].
  step_cases state log c H; simpl; rewrite ?check_code_request; simpl;
    try done.
  unfold site_request. by destruct (_ && _).
Qed.

(** One call only adds to the history, and once the final server flag is
    set what it adds is never an informational record. *)
Lemma step_log c w w' :
  step c w = Done w' ->
  exists new,
    snd w' = snd w ++ new /\
    (final_server (fst w) <> 0 -> forall e, e ∈ new -> is_info e = false).
Proof.
  assert (Hskip : forall state code,
            disposition_branch state code = false ->
            final_server state <> 0 -> False).
  { intros state code B Hfs. unfold disposition_branch in B.
    apply Z.eqb_neq in Hfs. by rewrite Hfs, andb_false_r in B. }
  destruct w as [state log]. intros H. step_cases state log c H; simpl.
  - apply dispose_loop_log in Hl as (new & -> & Hall & _).
    exists new. split; [done|]. intros _ e He.
    rewrite Forall_forall in Hall.
    destruct (Hall e He) as [(off & Hoff & _) _]. by destruct e.
  - eexists. split; [done|]. intros Hfs. by destruct (Hskip _ _ B Hfs).
  - apply dispose_loop_log in Hl as (new & -> & Hall & _).
    exists new. split; [done|]. intros _ e He.
    rewrite Forall_forall in Hall.
    destruct (Hall e He) as [(off & Hoff & _) _]. by destruct e.
  - eexists. split; [done|]. intros Hfs. by destruct (Hskip _ _ B Hfs).
  - eexists. split; [done|]. intros _ e He.
    apply elem_of_cons in He as [-> | He]; [by destruct (SMTP_SOFT code)|].
    apply list_elem_of_singleton in He. by subst.
  - eexists. split; [done|]. intros _ e He.
    apply list_elem_of_singleton in He. subst. by destruct (SMTP_SOFT code).
  - eexists. split; [done|]. intros Hfs. by destruct (Hskip _ _ B Hfs).
  - eexists. split; [done|]. intros Hfs. apply Z.eqb_eq in Efs. done.
  - eexists. split; [done|]. intros _ e He.
    by apply list_elem_of_fmap in He as (r & -> & _).
Qed.

(** X2. No routine assigns to the queue file stream, the session, the
    flags, queue id and arrival time of the request, or the addresses of a
    recipient, and the history of external calls is only ever extended:
    between an earlier and a later world of any run these are equal and
    the earlier history is a prefix of the later one. *)
Theorem request_frame (cs : list api_call) (w : world) (j k : nat)
    (wj wk : world) :
  run_calls cs w !! j = Some wj ->
  run_calls cs w !! k = Some wk ->
  (j <= k)%nat ->
  same_frame wj wk /\ exists new, snd wk = snd wj ++ new.
Proof.
  intros Hj Hk Hjk.
  eapply (run_calls_between (fun _ => True)
            (fun a b => same_frame a b /\ exists new, snd b = snd a ++ new));
    eauto using Forall_any_call.
  - intros a. split; [by unfold same_frame|]. exists []. by rewrite app_nil_r.
  - intros a b c [Fab [n1 Hab]] [Fbc [n2 Hbc]]. split.
    + unfold same_frame in *.
      destruct Fab as (?&?&?&?&?&?&?), Fbc as (?&?&?&?&?&?&?).
      repeat split; congruence.
    + exists (n1 ++ n2). by rewrite Hbc, Hab, app_assoc.
  - intros c w0 w0' _ H. split; [by eapply step_frame|].
    destruct (step_log c w0 w0' H) as (new & Hn & _). eauto.
Qed.

(** X3. Once the final server flag is set no routine takes its skip
    branch any more: from a world with the flag set on, a run adds no
    informational record to the history, whatever the calls are. *)
Theorem no_skip_after_final (cs : list api_call) (w : world) (j k : nat)
    (wj wk : world) :
  run_calls cs w !! j = Some wj ->
  run_calls cs w !! k = Some wk ->
  (j <= k)%nat ->
  final_server (fst wj) <> 0 ->
  exists new,
    snd wk = snd wj ++ new /\ forall e, e ∈ new -> is_info e = false.
Proof.
  intros Hj Hk Hjk Hfs.
  assert (H : final_server (fst wj) <> 0 ->
              final_server (fst wk) <> 0 /\
              exists new,
                snd wk = snd wj ++ new /\
                forall e, e ∈ new -> is_info e = false); [|by apply H].
  eapply (run_calls_between (fun _ => True)
            (fun a b => final_server (fst a) <> 0 ->
                        final_server (fst b) <> 0 /\
                        exists new,
                          snd b = snd a ++ new /\
                          forall e, e ∈ new -> is_info e = false));
    eauto using Forall_any_call.
  - intros a Ha. split; [done|]. exists []. rewrite app_nil_r.
    split; [done|]. intros e He. by apply elem_of_nil in He.
  - intros a b c Hab Hbc Ha.
    destruct (Hab Ha) as (Hb & n1 & E1 & H1).
    destruct (Hbc Hb) as (Hc & n2 & E2 & H2).
    split; [done|]. exists (n1 ++ n2). rewrite E2, E1, app_assoc.
    split; [done|]. intros e He. apply elem_of_app in He as [He|He]; auto.
  - intros c w0 w0' _ H Ha. split.
    + apply step_fields in H as (Hf & _). rewrite Hf.
      destruct c; try done; destruct (disposition_branch _ _); done.
    + destruct (step_log c w0 w0' H) as (new & Hn & Hi). eauto.
Qed.

(** X4. The error mask changes in one way only: between an earlier and a
    later world of any run it is either unchanged or it has gained the
    protocol error bit, and nothing else. *)
Theorem error_mask_gains_protocol_only (cs : list api_call) (w : world)
    (j k : nat) (wj wk : world) :
  run_calls cs w !! j = Some wj ->
  run_calls cs w !! k = Some wk ->
  (j <= k)%nat ->
  error_mask (fst wk) = error_mask (fst wj) \/
  error_mask (fst wk) = Z.lor (error_mask (fst wj)) MAIL_ERROR_PROTOCOL.
Proof.
  intros Hj Hk Hjk.
  eapply (run_calls_between (fun _ => True)
            (fun a b =>
               error_mask (fst b) = error_mask (fst a) \/
               error_mask (fst b)
               = Z.lor (error_mask (fst a)) MAIL_ERROR_PROTOCOL));
    eauto using Forall_any_call.
  - intros a b c [Hab|Hab] [Hbc|Hbc]; rewrite Hbc, Hab; auto.
    right. by rewrite <- Z.lor_assoc, Z.lor_diag.
  - intros c w0 w0' _ H. apply step_fields in H as (_ & -> & _).
    destruct c; auto; destruct (protocol_anomaly _); auto.
Qed.

(** X5. The hop status is write-once over a whole run: a cached text is
    never replaced, and where a run caches one the final server flag is 1
    from then on. *)
Theorem hop_status_write_once (cs : list api_call) (w : world) (j k : nat)
    (wj wk : world) :
  run_calls cs w !! j = Some wj ->
  run_calls cs w !! k = Some wk ->
  (j <= k)%nat ->
  (forall h, hop_of wj = Some h -> hop_of wk = Some h) /\
  (hop_of wj = None -> hop_of wk <> None -> final_server (fst wk) = 1).
Proof.
  intros Hj Hk Hjk.
  assert (H : (forall h, hop_of wj = Some h -> hop_of wk = Some h) /\
              (hop_of wj = None -> hop_of wk <> None ->
               final_server (fst wk) = 1) /\
              (final_server (fst wj) = 1 -> final_server (fst wk) = 1));
    [|by destruct H as (? & ? & _)].
  eapply (run_calls_between (fun _ => True)
            (fun a b =>
               (forall h, hop_of a = Some h -> hop_of b = Some h) /\
               (hop_of a = None -> hop_of b <> None ->
                final_server (fst b) = 1) /\
               (final_server (fst a) = 1 -> final_server (fst b) = 1)));
    eauto using Forall_any_call.
  - intros a. by repeat split.
  - intros a b c (Hab1 & Hab2 & Hab3) (Hbc1 & Hbc2 & Hbc3).
    split; [eauto|]. split; [|eauto].
    intros Ha Hc. destruct (hop_of b) as [h|] eqn:Hb; [|eauto].
    apply Hbc3, Hab2; done.
  - intros c w0 w0' _ H. apply step_fields in H as (Hf & _ & Hh & _).
    split; [|split].
    + intros h Hh0. rewrite Hh, Hh0.
      destruct c; try done.
      rewrite bool_decide_eq_false_2 by done. by rewrite andb_false_r.
    + intros Hn Hne. rewrite Hh in Hne. rewrite Hf.
      destruct c as [code why| | |]; try done.
      by destruct (disposition_branch (fst w0) code).
    + intros H1. rewrite Hf.
      destruct c; try done; by destruct (disposition_branch _ _).
Qed.

(** X6. [smtp_rcpt_fail] and [smtp_stream_except] never end the search
    for another server: a run that consists of these two routines only
    leaves the final server flag and the hop status exactly as they
    were. *)
Theorem rcpt_and_stream_keep_final_server (cs : list api_call) (w : world)
    (k : nat) (wk : world) :
  Forall (fun c => is_site_or_mesg c = false) cs ->
  run_calls cs w !! k = Some wk ->
  final_server (fst wk) = final_server (fst w) /\ hop_of wk = hop_of w.
Proof.
  intros HP Hk.
  eapply (run_calls_reach (fun c => is_site_or_mesg c = false)
            (fun a b => final_server (fst b) = final_server (fst a) /\
                        hop_of b = hop_of a)); eauto.
  - intros a b c [H1 H2] [H3 H4]. split; congruence.
  - intros c w0 w0' Hc H. apply step_fields in H as (Hf & _ & Hh & _).
    by destruct c.
Qed.

(** *** More on the recipient loop *)

Lemma finalized_cons r (l : list RECIPIENT) :
  finalized (r :: l) =
  if decide (offset r = 0) then S (finalized l) else finalized l.
Proof.
  unfold finalized. destruct (decide (offset r = 0)).
  - by rewrite filter_cons_True.
  - by rewrite filter_cons_False.
Qed.

Lemma append_event_kind soft_error a :
  is_info (append_event soft_error a) = false /\
  is_completed (append_event soft_error a) = false /\
  is_defer (append_event soft_error a) = soft_error /\
  is_bounce (append_event soft_error a) = negb soft_error.
Proof. by destruct soft_error. Qed.

(** The loop calls the defer service for a soft code and the bounce
    service for every other code, never both. *)
Lemma dispose_loop_kinds soft_error stream req relay why rcpts :
  forall st log rcpts' st' log',
    dispose_loop soft_error stream req relay why rcpts st log
      = Done (rcpts', st', log') ->
    exists new,
      log' = log ++ new /\
      forall e, e ∈ new ->
        is_defer e = true /\ soft_error = true \/
        is_bounce e = true /\ soft_error = false \/
        is_completed e = true.
Proof.
  induction rcpts as [|r rest IH]; intros st log rcpts' st' log' H.
  - simpl in H. simplify_eq. exists []. rewrite app_nil_r. split; [done|].
    intros e He. by apply elem_of_nil in He.
  - apply dispose_loop_cons in H
      as [(Hz & rest' & -> & H) | (Hnz & r1 & st1 & log1 & rest' & -> & Hr & H)].
    + eauto.
    + apply IH in H as (new & -> & Hnew).
      apply dispose_rcpt_inv in Hr as (host & -> & _ & Hcase). simpl in Hcase.
      assert (Ha : forall e,
                e = append_event soft_error (append_args req r host why) ->
                is_defer e = true /\ soft_error = true \/
                is_bounce e = true /\ soft_error = false \/
                is_completed e = true).
      { intros e ->. destruct soft_error; simpl; auto. }
      destruct Hcase as [(_ & _ & ->) | (_ & _ & ->)].
      * eexists. rewrite <- app_assoc. split; [done|]. intros e He.
        apply elem_of_app in He as [He|He]; [|auto].
        apply elem_of_cons in He as [He|He]; [auto|].
        apply list_elem_of_singleton in He. subst. auto.
      * eexists. rewrite <- app_assoc. split; [done|]. intros e He.
        apply elem_of_app in He as [He|He]; [|auto].
        apply list_elem_of_singleton in He. auto.
Qed.

(** The defer or bounce calls of the loop, in order, are one per
    recipient with a non-zero offset, in the order of the list. *)
Lemma dispose_loop_calls soft_error stream req host why rcpts :
  forall st log rcpts' st' log',
    dispose_loop soft_error stream req (Some host) why rcpts st log
      = Done (rcpts', st', log') ->
    exists new,
      log' = log ++ new /\
      filter (fun e => is_completed e = false) new =
      map (fun r => append_event soft_error (append_args req r host why))
          (filter (fun r => offset r <> 0) rcpts).
Proof.
  induction rcpts as [|r rest IH]; intros st log rcpts' st' log' H.
  - simpl in H. simplify_eq. exists []. by rewrite app_nil_r.
  - apply dispose_loop_cons in H
      as [(Hz & rest' & -> & H) | (Hnz & r1 & st1 & log1 & rest' & -> & Hr & H)].
    + rewrite filter_cons_False by (intros ?; done). eauto.
    + rewrite filter_cons_True by done.
      apply IH in H as (new & -> & Hnew).
      apply dispose_rcpt_inv in Hr as (host' & ? & _ & Hcase). simplify_eq.
      simpl in Hcase.
      pose proof (append_event_kind soft_error (append_args req r host' why))
        as (_ & Hc & _).
      destruct Hcase as [(_ & _ & ->) | (_ & _ & ->)].
      * eexists. rewrite <- app_assoc. split; [done|]. simpl.
        rewrite filter_cons_True by done.
        rewrite filter_cons_False by (simpl; done). by rewrite Hnew.
      * eexists. rewrite <- app_assoc. split; [done|]. simpl.
        rewrite filter_cons_True by done. by rewrite Hnew.
Qed.

(** [deliver_completed] is called once for every recipient whose offset
    the loop clears, with the stream of the queue file and the offset the
    recipient had. *)
Lemma dispose_loop_completed soft_error stream req relay why rcpts :
  forall st log rcpts' st' log',
    dispose_loop soft_error stream req relay why rcpts st log
      = Done (rcpts', st', log') ->
    exists new,
      log' = log ++ new /\
      (finalized rcpts
       + length (filter (fun e => is_completed e = true) new))%nat
      = finalized rcpts' /\
      forall e, e ∈ new -> is_completed e = true ->
        exists r, r ∈ rcpts /\ offset r <> 0 /\
                  e = Ev_deliver_completed stream (offset r).
Proof.
  induction rcpts as [|r rest IH]; intros st log rcpts' st' log' H.
  - simpl in H. simplify_eq. exists []. rewrite app_nil_r.
    split; [done|]. split; [done|]. intros e He. by apply elem_of_nil in He.
  - apply dispose_loop_cons in H
      as [(Hz & rest' & -> & H) | (Hnz & r1 & st1 & log1 & rest' & -> & Hr & H)].
    + apply IH in H as (new & -> & Hcount & Hev). exists new.
      split; [done|]. rewrite !finalized_cons.
      destruct (decide (offset r = 0)) as [_|?]; [|done].
      split; [simpl; lia|].
      intros e He Hc. destruct (Hev e He Hc) as (r0 & Hr0 & Hnz & ->).
      exists r0. split; [by right|done].
    + apply IH in H as (new & -> & Hcount & Hev).
      apply dispose_rcpt_inv in Hr as (host & -> & _ & Hcase). simpl in Hcase.
      pose proof (append_event_kind soft_error (append_args req r host why))
        as (_ & Hc & _).
      rewrite !finalized_cons.
      destruct (decide (offset r = 0)) as [?|_]; [done|].
      destruct Hcase as [(_ & -> & ->) | (_ & -> & ->)].
      * eexists. rewrite <- app_assoc. split; [done|]. simpl. split.
        -- rewrite filter_cons_False by (rewrite Hc; done).
           rewrite filter_cons_True by done. simpl. lia.
        -- intros e He Hce.
           apply elem_of_cons in He as [-> | He]; [congruence|].
           apply elem_of_cons in He as [-> | He].
           ++ exists r. split; [by left|done].
           ++ destruct (Hev e He Hce) as (r0 & Hr0 & Hnz0 & ->).
              exists r0. split; [by right|done].
      * eexists. rewrite <- app_assoc. split; [done|]. simpl. split.
        -- rewrite filter_cons_False by (rewrite Hc; done).
           destruct (decide (offset r = 0)) as [?|_]; [done|]. lia.
        -- intros e He Hce.
           apply elem_of_cons in He as [-> | He]; [congruence|].
           destruct (Hev e He Hce) as (r0 & Hr0 & Hnz0 & ->).
           exists r0. split; [by right|done].
Qed.

(** A status of 0 after the loop means that every call of the loop
    returned 0, so every recipient ends with offset 0. *)
Lemma dispose_loop_zero soft_error stream req relay why rcpts :
  forall st log rcpts' log',
    dispose_loop soft_error stream req relay why rcpts st log
      = Done (rcpts', 0, log') ->
    Forall (fun r => offset r = 0) rcpts'.
Proof.
  induction rcpts as [|r rest IH]; intros st log rcpts' log' H.
  - simpl in H. simplify_eq. constructor.
  - apply dispose_loop_cons in H
      as [(Hz & rest' & -> & H) | (Hnz & r1 & st1 & log1 & rest' & -> & Hr & H)].
    + constructor; eauto.
    + pose proof (dispose_loop_status _ _ _ _ _ _ _ _ _ _ _ H st1
                    (Z.lor_diag st1)) as Hst1.
      rewrite Z.lor_0_l in Hst1. subst st1. constructor; [|eauto].
      apply dispose_rcpt_inv in Hr as (host & _ & Hst & Hcase).
      simpl in Hst, Hcase. symmetry in Hst.
      apply Z.lor_eq_0_iff in Hst as [_ Hres].
      destruct Hcase as [(_ & -> & _) | (Hne & _ & _)]; done.
Qed.

(** With no recipient left the loop does nothing, with or without a
    session. *)
Lemma dispose_loop_nothing soft_error stream req relay why rcpts st log :
  Forall (fun r => offset r = 0) rcpts ->
  dispose_loop soft_error stream req relay why rcpts st log
    = Done (rcpts, st, log).
Proof.
  induction 1 as [|r rest Hr _ IH]; simpl; [done|].
  apply Z.eqb_eq in Hr. by rewrite Hr, IH.
Qed.

Lemma filter_none {A} (P : A -> Prop) `{forall x, Decision (P x)}
    (l : list A) :
  (forall x, x ∈ l -> ~ P x) -> filter P l = [].
Proof.
  induction l as [|x l IH]; intros Hl; [done|].
  rewrite filter_cons_False by (apply Hl; by left).
  apply IH. intros y Hy. apply Hl. by right.
Qed.

Lemma finalized_insert_clear (l : list RECIPIENT) :
  forall (n : nat) r,
    l !! n = Some r -> offset r <> 0 ->
    finalized (<[n := set_offset r 0]> l) = S (finalized l).
Proof.
  induction l as [|r0 l IH]; intros n r Hn Hr; [done|].
  destruct n as [|n]; simpl in *; simplify_eq.
  - rewrite !finalized_cons. simpl.
    destruct (decide (0 = 0)); [|done]. by destruct (decide (offset r = 0)).
  - rewrite !finalized_cons, (IH n r Hn Hr).
    by destruct (decide (offset r0 = 0)).
Qed.

Lemma defer_loop_nothing req relay why rcpts st log :
  Forall (fun r => offset r = 0) rcpts ->
  defer_loop req relay why rcpts st log = Done (st, log).
Proof.
  induction 1 as [|r rest Hr _ IH]; simpl; [done|].
  apply Z.eqb_eq in Hr. by rewrite Hr, IH.
Qed.

(** X7. A soft code is handled by the defer service and every other code
    by the bounce service: no call of [smtp_site_fail], [smtp_mesg_fail]
    or [smtp_rcpt_fail] makes a defer call unless its code is 4xx, or a
    bounce call if its code is 4xx. A code that is neither 4xx nor 5xx is
    therefore bounced like a 5xx code. [smtp_stream_except] never makes a
    bounce call. *)
Theorem soft_defers_else_bounces (c : api_call) (w w' : world) :
  step c w = Done w' ->
  exists new,
    snd w' = snd w ++ new /\
    forall e, e ∈ new ->
      (is_bounce e = true ->
         match c with
         | Stream_except _ _ => False
         | _ => SMTP_SOFT (call_code c) = false
         end) /\
      (is_defer e = true ->
         match c with
         | Stream_except _ _ => True
         | _ => SMTP_SOFT (call_code c) = true
         end).
Proof.
  assert (Hloop : forall soft_error (new : list event),
            (forall e, e ∈ new ->
               is_defer e = true /\ soft_error = true \/
               is_bounce e = true /\ soft_error = false \/
               is_completed e = true) ->
            forall e, e ∈ new ->
              (is_bounce e = true -> soft_error = false) /\
              (is_defer e = true -> soft_error = true)).
  { intros soft_error new Hnew e He.
    destruct (Hnew e He) as [[Hd ->] | [[Hb ->] | Hc]];
      destruct e; simpl in *; done. }
  destruct w as [state log]. intros H. step_cases state log c H; simpl.
  - apply dispose_loop_kinds in Hl as (new & -> & Hnew). eauto.
  - eexists. split; [done|]. intros e He.
    apply list_elem_of_singleton in He. by subst.
  - apply dispose_loop_kinds in Hl as (new & -> & Hnew). eauto.
  - eexists. split; [done|]. intros e He.
    apply list_elem_of_singleton in He. by subst.
  - eexists. split; [done|]. intros e He.
    apply elem_of_cons in He as [-> | He].
    + by destruct (SMTP_SOFT code).
    + apply list_elem_of_singleton in He. by subst.
  - eexists. split; [done|]. intros e He.
    apply list_elem_of_singleton in He. subst. by destruct (SMTP_SOFT code).
  - eexists. split; [done|]. intros e He.
    apply list_elem_of_singleton in He. by subst.
  - eexists. split; [done|]. intros e He.
    apply list_elem_of_singleton in He. by subst.
  - eexists. split; [done|]. intros e He.
    by apply list_elem_of_fmap in He as (r & -> & _).
Qed.

(** X8. A code that is neither 4xx nor 5xx is not rejected by
    [smtp_site_fail]: the call returns -1, raises the final server flag,
    sets the protocol error bit, and hands every recipient that is left to
    the bounce service, in the order of the list. *)
Theorem unexpected_code_bounces_all (state : SMTP_STATE) (code : Z)
    (why : string) (log : list event) :
  classify code = Neither ->
  exists w' new,
    smtp_site_fail state code why log = Done (-1, w') /\
    final_server (fst w') = 1 /\
    error_mask (fst w') = Z.lor (error_mask state) MAIL_ERROR_PROTOCOL /\
    snd w' = log ++ new /\
    filter (fun e => is_completed e = false) new =
    map (fun r => Ev_bounce_append
                    (append_args (request state) r (site_relay state) why))
        (filter (fun r => offset r <> 0) (rcpt_list (request state))).
Proof.
  unfold classify. intros Hc.
  destruct (SMTP_SOFT code) eqn:Hs; [done|].
  destruct (SMTP_HARD code) eqn:Hh; [done|].
  assert (B : disposition_branch state code = true)
    by (unfold disposition_branch; by rewrite Hs).
  destruct (site_fail_dispose state code why log B)
    as (rcpts' & st' & log' & Hl & E).
  rewrite Hs in Hl.
  apply dispose_loop_calls in Hl as (new & -> & Hnew).
  eexists _, new. split; [exact E|]. simpl.
  rewrite check_code_final_server, check_code_error_mask. simpl.
  unfold protocol_anomaly. rewrite Hs, Hh. simpl. done.
Qed.

(** X9. In the disposition branch [smtp_site_fail], and [smtp_mesg_fail]
    with a session, lose no recipient: they return, and their defer or
    bounce calls are exactly one per recipient with a non-zero offset, in
    the order of the recipient list, each with the text of the call. *)
Theorem bulk_calls_in_order (state : SMTP_STATE) (code : Z) (why : string)
    (log : list event) :
  disposition_branch state code = true ->
  (exists w' new,
     smtp_site_fail state code why log = Done (-1, w') /\
     snd w' = log ++ new /\
     filter (fun e => is_completed e = false) new =
     map (fun r => append_event (SMTP_SOFT code)
                     (append_args (request state) r (site_relay state) why))
         (filter (fun r => offset r <> 0) (rcpt_list (request state)))) /\
  (forall s, session state = Some s ->
     exists w' new,
       smtp_mesg_fail state code why log = Done (-1, w') /\
       snd w' = log ++ new /\
       filter (fun e => is_completed e = false) new =
       map (fun r => append_event (SMTP_SOFT code)
                       (append_args (request state) r (namaddr s) why))
           (filter (fun r => offset r <> 0) (rcpt_list (request state)))).
Proof.
  intros B. split.
  - destruct (site_fail_dispose state code why log B)
      as (rcpts' & st' & log' & Hl & E).
    apply dispose_loop_calls in Hl as (new & -> & Hnew).
    eexists _, new. split; [exact E|]. done.
  - intros s Hs.
    destruct (mesg_fail_total state code why log s Hs B)
      as (rcpts' & st' & log' & Hl & E).
    apply dispose_loop_calls in Hl as (new & -> & Hnew).
    eexists _, new. split; [exact E|]. done.
Qed.

(** X10. [deliver_completed] is called exactly once for every recipient
    that a call brings from a non-zero offset to 0, with the stream of the
    queue file and the offset the recipient had: the number of completion
    calls a call adds is the number of recipients it finalizes. For
    [smtp_rcpt_fail] this needs the recipient it is given to have a
    non-zero offset. *)
Theorem completed_once_per_finalized (c : api_call) (w w' : world) :
  (forall code nrcpt why,
     c = Rcpt_fail code nrcpt why ->
     disposition_branch (fst w) code = true ->
     exists r, rcpts_of w !! nrcpt = Some r /\ offset r <> 0) ->
  step c w = Done w' ->
  exists new,
    snd w' = snd w ++ new /\
    (finalized (rcpts_of w)
     + length (filter (fun e => is_completed e = true) new))%nat
    = finalized (rcpts_of w') /\
    forall e, e ∈ new -> is_completed e = true ->
      exists r, r ∈ rcpts_of w /\ offset r <> 0 /\
                e = Ev_deliver_completed (src (fst w)) (offset r).
Proof.
  destruct w as [state log]. unfold rcpts_of. simpl. intros Hpre H.
  assert (Hnone : forall e0 : event,
            is_completed e0 = false ->
            exists new,
              log ++ [e0] = log ++ new /\
              (finalized (rcpt_list (request state))
               + length (filter (fun e => is_completed e = true) new))%nat
              = finalized (rcpt_list (request state)) /\
              forall e, e ∈ new -> is_completed e = true ->
                exists r, r ∈ rcpt_list (request state) /\ offset r <> 0 /\
                          e = Ev_deliver_completed (src state) (offset r)).
  { intros e0 He0. exists [e0]. split; [done|]. split.
    - rewrite filter_cons_False by (rewrite He0; done). simpl. lia.
    - intros e He Hc. apply list_elem_of_singleton in He. congruence. }
  step_cases state log c H; simpl; rewrite ?check_code_request; simpl.
  - apply dispose_loop_completed in Hl as (new & -> & Hcount & Hev).
    exists new. split; [done|]. split; [|done].
    unfold site_request. by destruct (_ && _).
  - by apply Hnone.
  - apply dispose_loop_completed in Hl as (new & -> & Hcount & Hev).
    exists new. by split.
  - by apply Hnone.
  - destruct (Hpre code nrcpt why eq_refl B) as (r0 & Hr' & Hnz).
    rewrite Hr in Hr'. injection Hr' as <-.
    eexists. split; [done|]. split.
    + pose proof (append_event_kind (SMTP_SOFT code)
                    (append_args (request state) rcpt (namaddr s) why))
        as (_ & Hc & _).
      rewrite filter_cons_False by (rewrite Hc; done).
      rewrite filter_cons_True by done. simpl.
      rewrite (finalized_insert_clear _ _ _ Hr Hnz). lia.
    + intros e He Hc.
      apply elem_of_cons in He as [-> | He].
      * pose proof (append_event_kind (SMTP_SOFT code)
                      (append_args (request state) rcpt (namaddr s) why))
          as (_ & Hc' & _). congruence.
      * apply list_elem_of_singleton in He. subst.
        exists rcpt. split; [by eapply list_elem_of_lookup_2|done].
  - apply Hnone.
    by destruct (append_event_kind (SMTP_SOFT code)
                   (append_args (request state) rcpt (namaddr s) why))
      as (_ & ? & _).
  - by apply Hnone.
  - by apply Hnone.
  - eexists. split; [done|]. split.
    + assert (Hf : filter (fun e => is_completed e = true)
                     (map (fun r => Ev_defer_append
                                      (append_args (request state) r
                                         (namaddr s) why))
                          (filter (fun r => offset r <> 0)
                             (rcpt_list (request state)))) = []).
      { apply filter_none. intros e He.
        by apply list_elem_of_fmap in He as (r & -> & _). }
      rewrite Hf. simpl. lia.
    + intros e He Hc. by apply list_elem_of_fmap in He as (r & -> & _).
Qed.

(** X11. [smtp_rcpt_fail] deals with the recipient it is given and with no
    other: every other recipient of the request is left exactly as it
    was, the number of recipients is unchanged, and at most one defer or
    bounce call is made. *)
Theorem rcpt_fail_one_recipient (state : SMTP_STATE) (code : Z)
    (nrcpt : nat) (why : string) (log : list event) (w' : world) :
  smtp_rcpt_fail state code nrcpt why log = Done w' ->
  length (rcpts_of w') = length (rcpt_list (request state)) /\
  (forall i : nat, i <> nrcpt ->
     rcpts_of w' !! i = rcpt_list (request state) !! i) /\
  exists new,
    snd w' = log ++ new /\
    (length (filter (fun e => is_defer e = true \/ is_bounce e = true) new)
     <= 1)%nat.
Proof.
  intros H. unfold rcpts_of.
  destruct (disposition_branch state code) eqn:B.
  - destruct (rcpt_list (request state) !! nrcpt) as [rcpt|] eqn:Hr;
      [|rewrite rcpt_fail_fault in H by auto; done].
    destruct (session state) as [s|] eqn:Hs;
      [|rewrite rcpt_fail_fault in H by auto; done].
    rewrite (rcpt_fail_dispose state code nrcpt why log rcpt s B Hr Hs) in H.
    cbv zeta in H.
    destruct (append_result _ _ _ =? 0); simplify_eq; simpl;
      rewrite check_code_request; simpl.
    + split; [apply length_insert|]. split.
      { intros i Hi. by apply list_lookup_insert_ne. }
      eexists. split; [done|].
      rewrite filter_cons, filter_cons_False by (simpl; intros [?|?]; done).
      destruct (decide _); simpl; lia.
    + split; [done|]. split; [done|]. eexists. split; [done|].
      rewrite filter_cons. destruct (decide _); simpl; lia.
  - rewrite (rcpt_fail_skip state code nrcpt why log B) in H. simplify_eq.
    simpl. rewrite check_code_request. split; [done|]. split; [done|].
    eexists. split; [done|].
    rewrite filter_cons_False by (simpl; intros [?|?]; done). simpl. lia.
Qed.

(** X12. [smtp_rcpt_fail] does not look at the offset of the recipient it
    is given. In the disposition branch a recipient that is done already
    is handed to the defer or bounce service once more, with offset 0, and
    when that call returns 0 [deliver_completed] is called with offset 0;
    the recipient list is unchanged. Skipping recipients that are done is
    left to the caller. *)
Theorem rcpt_fail_done_recipient (state : SMTP_STATE) (code : Z)
    (nrcpt : nat) (why : string) (log : list event) (r : RECIPIENT)
    (s : SMTP_SESSION) :
  disposition_branch state code = true ->
  rcpt_list (request state) !! nrcpt = Some r ->
  offset r = 0 ->
  session state = Some s ->
  let a := append_args (request state) r (namaddr s) why in
  a_offset a = 0 /\
  exists w',
    smtp_rcpt_fail state code nrcpt why log = Done w' /\
    rcpts_of w' = rcpt_list (request state) /\
    snd w' =
      log ++ append_event (SMTP_SOFT code) a ::
      (if append_result (SMTP_SOFT code) log a =? 0
       then [Ev_deliver_completed (src state) 0] else []).
Proof.
  intros B Hr Hz Hs a. split; [done|].
  rewrite (rcpt_fail_dispose state code nrcpt why log r s B Hr Hs).
  cbv zeta. fold a. unfold rcpts_of.
  destruct (append_result (SMTP_SOFT code) log a =? 0).
  - eexists. split; [done|]. simpl. rewrite check_code_request. simpl.
    rewrite Hz. split; [|done].
    apply list_insert_id. rewrite Hr. f_equal.
    destruct r; simpl in *; by subst.
  - eexists. split; [done|]. simpl. by rewrite check_code_request.
Qed.

(** X13. With no recipient left (every offset 0, or an empty list) the
    routines make no external call in the disposition branch and leave
    the status and the recipients as they are: [smtp_site_fail] and
    [smtp_mesg_fail] only raise the final server flag, and
    [smtp_mesg_fail] returns even without a session; [smtp_stream_except]
    on the final server changes nothing. *)
Theorem nothing_left_no_calls (state : SMTP_STATE) (code : Z) (why : string)
    (log : list event) :
  Forall (fun r => offset r = 0) (rcpt_list (request state)) ->
  (disposition_branch state code = true ->
   (exists w',
      smtp_site_fail state code why log = Done (-1, w') /\
      snd w' = log /\ rcpts_of w' = rcpt_list (request state) /\
      status (fst w') = status state /\ final_server (fst w') = 1) /\
   (exists w',
      smtp_mesg_fail state code why log = Done (-1, w') /\
      snd w' = log /\ rcpts_of w' = rcpt_list (request state) /\
      status (fst w') = status state /\ final_server (fst w') = 1)) /\
  (forall kind description s,
     session state = Some s ->
     kind = SMTP_ERR_EOF \/ kind = SMTP_ERR_TIME ->
     final_server state <> 0 ->
     smtp_stream_except state kind description log
     = Done (-1, (set_status state (status state), log))).
Proof.
  intros Hall. split.
  - intros B. split.
    + destruct (site_fail_dispose state code why log B)
        as (rcpts' & st' & log' & Hl & E).
      rewrite dispose_loop_nothing in Hl by done. simplify_eq.
      eexists. split; [exact E|]. unfold rcpts_of. simpl.
      rewrite check_code_request, check_code_status,
        check_code_final_server. simpl.
      repeat split; try done. unfold site_request. by destruct (_ && _).
    + rewrite (mesg_fail_dispose state code why log B),
        dispose_loop_nothing by done.
      eexists. split; [done|]. unfold rcpts_of. simpl.
      by rewrite check_code_request, check_code_status,
        check_code_final_server.
  - intros kind description s Hs Hk Hfs.
    destruct (stream_except_known state kind description log s Hs Hk)
      as (txt & _ & _ & _ & E).
    apply Z.eqb_neq in Hfs. rewrite E, Hfs.
    by rewrite defer_loop_nothing.
Qed.

(** X14. A status of 0 is a full success, not a partial one: when
    [smtp_site_fail] or [smtp_mesg_fail] returns with status 0 every
    recipient has offset 0 and the final server flag is 1, and when
    [smtp_rcpt_fail] returns with status 0 the recipient it was given has
    offset 0. *)
Theorem status_zero_all_done (c : api_call) (w w' : world) :
  step c w = Done w' ->
  status (fst w') = 0 ->
  match c with
  | Site_fail _ _ | Mesg_fail _ _ =>
      Forall (fun r => offset r = 0) (rcpts_of w') /\
      final_server (fst w') = 1
  | Rcpt_fail _ nrcpt _ =>
      exists r', rcpts_of w' !! nrcpt = Some r' /\ offset r' = 0
  | Stream_except _ _ => True
  end.
Proof.
  destruct w as [state log]. unfold rcpts_of. intros H Hz.
  step_cases state log c H; simpl in *;
    rewrite ?check_code_request, ?check_code_status,
      ?check_code_final_server in *; simpl in *; try done.
  - subst st'. split; [|done]. apply dispose_loop_zero in Hl.
    unfold site_request. by destruct (_ && _).
  - by rewrite Z.lor_m1_r in Hz.
  - subst st'. split; [|done]. by apply dispose_loop_zero in Hl.
  - by rewrite Z.lor_m1_r in Hz.
  - exists (set_offset rcpt 0). split; [|done].
    apply list_lookup_insert_eq. by eapply lookup_lt_Some.
  - apply Z.lor_eq_0_iff in Hz as [_ Hres]. apply Z.eqb_neq in Eres. done.
  - by rewrite Z.lor_m1_r in Hz.
Qed.

(** X23. With a session, [smtp_site_fail] and [smtp_mesg_fail] are the
    same routine up to the hop status: on the same state, code and text
    they return the same value, make the same external calls, and leave
    states that are equal once the hop status is put back to what it was
    before the call. *)
Theorem site_and_mesg_differ_in_hop_status_only (state : SMTP_STATE)
    (code : Z) (why : string) (log : list event) (s : SMTP_SESSION) :
  session state = Some s ->
  exists st_site st_mesg log',
    smtp_site_fail state code why log = Done (-1, (st_site, log')) /\
    smtp_mesg_fail state code why log = Done (-1, (st_mesg, log')) /\
    set_request st_site
      (set_hop_status (request st_site) (hop_status (request state)))
    = st_mesg.
Proof.
  intros Hs. destruct (disposition_branch state code) eqn:B.
  - destruct (mesg_fail_total state code why log s Hs B)
      as (rcpts' & st' & log' & Hl & Em).
    destruct (site_fail_dispose state code why log B)
      as (rcpts2 & st2 & log2 & Hl2 & Es).
    assert (Hrel : site_relay state = namaddr s)
      by (unfold site_relay; by rewrite Hs).
    rewrite Hrel, Hl in Hl2. simplify_eq.
    eexists _, _, _. split; [exact Es|]. split; [exact Em|].
    unfold smtp_check_code, site_request.
    destruct state as [? [? ? ? ? ?] ? ? ? ?]. simpl.
    destruct (protocol_anomaly code), (SMTP_SOFT code && _); done.
  - rewrite (site_fail_skip state code why log B),
      (mesg_fail_skip state code why log B).
    eexists _, _, _. split; [done|]. split; [done|].
    unfold smtp_check_code.
    destruct state as [? [? ? ? ? ?] ? ? ? ?]. simpl.
    by destruct (protocol_anomaly code).
Qed.

(** *** Recipients that are done are not dealt with again *)

Lemma rcpt_call_pending_inv code nrcpt why w :
  rcpt_call_pending (Rcpt_fail code nrcpt why) w = true ->
  disposition_branch (fst w) code = true ->
  exists r, rcpts_of w !! nrcpt = Some r /\ offset r <> 0.
Proof.
  simpl. intros H B. rewrite B in H. simpl in H.
  destruct (rcpts_of w !! nrcpt) as [r|]; [|done].
  exists r. split; [done|]. by apply negb_true_iff, Z.eqb_neq in H.
Qed.

Lemma pending_once_refl w : finalizes_pending_once w w.
Proof.
  exists []. rewrite app_nil_r. split; [done|]. split.
  - intros e off He. by apply elem_of_nil in He.
  - simpl. lia.
Qed.

Lemma pending_once_trans w1 w2 w3 :
  finalizes_pending_once w1 w2 -> finalizes_pending_once w2 w3 ->
  finalizes_pending_once w1 w3.
Proof.
  intros (n1 & E1 & O1 & C1) (n2 & E2 & O2 & C2).
  exists (n1 ++ n2). split; [by rewrite E2, E1, app_assoc|]. split.
  - intros e off He. apply elem_of_app in He as [He|He]; eauto.
  - rewrite filter_app, length_app. lia.
Qed.

(** One call: the loops test the offset themselves, [smtp_rcpt_fail]
    relies on its caller. *)
Lemma step_pending_once c w w' :
  rcpt_call_pending c w = true ->
  step c w = Done w' ->
  finalizes_pending_once w w'.
Proof.
  destruct w as [state log]. unfold finalizes_pending_once, rcpts_of.
  intros Hpre H.
  assert (Hnone : forall e0 : event,
            is_completed e0 = false ->
            (forall off, event_offset e0 = Some off -> off <> 0) ->
            exists new,
              log ++ [e0] = log ++ new /\
              (forall e off,
                 e ∈ new -> event_offset e = Some off -> off <> 0) /\
              (finalized (rcpt_list (request state))
               + length (filter (fun e => is_completed e = true) new))%nat
              = finalized (rcpt_list (request state))).
  { intros e0 He0 Hoff. exists [e0]. split; [done|]. split.
    - intros e off He. apply list_elem_of_singleton in He. subst. auto.
    - rewrite filter_cons_False by (rewrite He0; done). simpl. lia. }
  assert (Hloop : forall soft stream req relay why rcpts st rcpts' st' log',
            dispose_loop soft stream req relay why rcpts st log
              = Done (rcpts', st', log') ->
            exists new,
              log' = log ++ new /\
              (forall e off,
                 e ∈ new -> event_offset e = Some off -> off <> 0) /\
              (finalized rcpts
               + length (filter (fun e => is_completed e = true) new))%nat
              = finalized rcpts').
  { intros soft stream req relay why rcpts st rcpts' st' log' Hl.
    pose proof (dispose_loop_log _ _ _ _ _ _ _ _ _ _ _ Hl)
      as (new & Hlog & Hall & _).
    pose proof (dispose_loop_completed _ _ _ _ _ _ _ _ _ _ _ Hl)
      as (new2 & Hlog2 & Hcount & _).
    rewrite Hlog in Hlog2. apply app_inv_head in Hlog2. subst new2.
    exists new. split; [done|]. split; [|done].
    intros e off He Hoff. rewrite Forall_forall in Hall.
    destruct (Hall e He) as ((off' & Ho & Hnz) & _). congruence. }
  step_cases state log c H; simpl; rewrite ?check_code_request; simpl.
  - apply Hloop in Hl as (new & -> & Ho & Hc).
    exists new. split; [done|]. split; [done|].
    unfold site_request. by destruct (_ && _).
  - by apply Hnone.
  - apply Hloop in Hl as (new & -> & Ho & Hc). by exists new.
  - by apply Hnone.
  - destruct (rcpt_call_pending_inv _ _ _ _ Hpre B) as (r0 & Hr' & Hnz).
    unfold rcpts_of in Hr'. simpl in Hr'. rewrite Hr in Hr'.
    injection Hr' as <-.
    eexists. split; [done|]. split.
    + intros e off He Ho.
      apply elem_of_cons in He as [-> | He].
      * destruct (SMTP_SOFT code); simpl in Ho; by simplify_eq.
      * apply list_elem_of_singleton in He. subst. simpl in Ho.
        by simplify_eq.
    + pose proof (append_event_kind (SMTP_SOFT code)
                    (append_args (request state) rcpt (namaddr s) why))
        as (_ & Hc & _).
      rewrite filter_cons_False by (rewrite Hc; done).
      rewrite filter_cons_True by done. simpl.
      rewrite (finalized_insert_clear _ _ _ Hr Hnz). lia.
  - destruct (rcpt_call_pending_inv _ _ _ _ Hpre B) as (r0 & Hr' & Hnz).
    unfold rcpts_of in Hr'. simpl in Hr'. rewrite Hr in Hr'.
    injection Hr' as <-.
    apply Hnone.
    + by destruct (append_event_kind (SMTP_SOFT code)
                     (append_args (request state) rcpt (namaddr s) why))
        as (_ & ? & _).
    + intros off Ho. destruct (SMTP_SOFT code); simpl in Ho; by simplify_eq.
  - by apply Hnone.
  - by apply Hnone.
  - eexists. split; [done|]. split.
    + intros e off He Ho.
      apply list_elem_of_fmap in He as (r & -> & Hr).
      apply list_elem_of_filter in Hr as [Hnz _]. simpl in Ho.
      by simplify_eq.
    + assert (Hf : filter (fun e => is_completed e = true)
                     (map (fun r => Ev_defer_append
                                      (append_args (request state) r
                                         (namaddr s) why))
                          (filter (fun r => offset r <> 0)
                             (rcpt_list (request state)))) = []).
      { apply filter_none. intros e He.
        by apply list_elem_of_fmap in He as (r & -> & _). }
      rewrite Hf. simpl. lia.
Qed.

Lemma run_pending_reach cs :
  forall w (k : nat) wk,
    rcpt_calls_pending cs w = true ->
    run_calls cs w !! k = Some wk ->
    finalizes_pending_once w wk.
Proof.
  induction cs as [|c cs IH]; intros w k wk Hp Hk; destruct k as [|k];
    simpl in Hk; simplify_eq; try apply pending_once_refl.
  simpl in Hp. apply andb_true_iff in Hp as [Hc Hp].
  destruct (step c w) as [w1| |] eqn:E; simpl in Hk; try done.
  eapply pending_once_trans; [by eapply step_pending_once|].
  by eapply IH.
Qed.

Lemma run_pending_suffix cs :
  forall w (j : nat) wj,
    rcpt_calls_pending cs w = true ->
    run_calls cs w !! j = Some wj ->
    exists cs',
      rcpt_calls_pending cs' wj = true /\
      forall k : nat,
        run_calls cs w !! (j + k)%nat = run_calls cs' wj !! k.
Proof.
  induction cs as [|c cs IH]; intros w j wj Hp H; destruct j as [|j];
    simpl in H; simplify_eq.
  - by exists [].
  - by exists (c :: cs).
  - simpl in Hp. apply andb_true_iff in Hp as [Hc Hp].
    destruct (step c w) as [w1| |] eqn:E; simpl in H; try done.
    destruct (IH _ _ _ Hp H) as (cs' & Hp' & Hcs'). exists cs'.
    split; [done|]. intros k. simpl. rewrite E. apply Hcs'.
Qed.

(** C1. Along every sequence of calls of the four routines, at every world
    the run goes through, the recipients that are done (offset 0) and the
    recipients that are left (offset not 0) add up to the number of
    recipients at the start; between an earlier and a later world a
    recipient is either unchanged or had its non-zero offset cleared, so a
    recipient that is done stays done; and every external call that the
    recipient loops of [smtp_site_fail], [smtp_mesg_fail] and
    [smtp_stream_except] make is about a recipient whose offset is not 0.
    [smtp_rcpt_fail] does not test the offset of the recipient it is
    given. A call of any of the four routines that is not an
    [smtp_rcpt_fail] on a recipient that is done makes external calls
    about recipients that are left only, and calls [deliver_completed]
    once for each recipient it brings to offset 0; along a sequence all
    of whose calls are such calls, the same holds between any earlier and
    any later world. *)
Theorem recipient_marker_invariant (cs : list api_call) (w : world)
    (j k : nat) (wj wk : world) :
  run_calls cs w !! j = Some wj ->
  run_calls cs w !! k = Some wk ->
  (j <= k)%nat ->
  (finalized (rcpts_of wk) + pending (rcpts_of wk))%nat
    = length (rcpts_of w) /\
  (forall (i : nat) r, rcpts_of wj !! i = Some r ->
     exists r', rcpts_of wk !! i = Some r' /\ marker_step r r') /\
  (forall (i : nat) r, rcpts_of wj !! i = Some r -> offset r = 0 ->
     rcpts_of wk !! i = Some r) /\
  (forall c w',
     (forall code nrcpt why, c <> Rcpt_fail code nrcpt why) ->
     step c wk = Done w' ->
     exists new,
       snd w' = snd wk ++ new /\
       forall e off, e ∈ new -> event_offset e = Some off -> off <> 0) /\
  (forall c w',
     rcpt_call_pending c wk = true ->
     step c wk = Done w' ->
     exists new,
       snd w' = snd wk ++ new /\
       (forall e off, e ∈ new -> event_offset e = Some off -> off <> 0) /\
       (finalized (rcpts_of wk)
        + length (filter (fun e => is_completed e = true) new))%nat
       = finalized (rcpts_of w')) /\
  (rcpt_calls_pending cs w = true ->
   exists new,
     snd wk = snd wj ++ new /\
     (forall e off, e ∈ new -> event_offset e = Some off -> off <> 0) /\
     (finalized (rcpts_of wj)
      + length (filter (fun e => is_completed e = true) new))%nat
     = finalized (rcpts_of wk)).
Proof.
  intros Hj Hk Hjk.
  destruct (run_markers_and_loops cs w j k wj wk Hj Hk Hjk)
    as (H1 & H2 & H3 & H4).
  do 4 (split; [done|]). split.
  - intros c w'. apply step_pending_once.
  - intros Hp.
    destruct (run_pending_suffix _ _ _ _ Hp Hj) as (cs' & Hp' & Hcs').
    replace k with (j + (k - j))%nat in Hk by lia.
    rewrite Hcs' in Hk. exact (run_pending_reach _ _ _ _ Hp' Hk).
Qed.

(** *** The host name that is passed on *)

(** C10. [smtp_site_fail] returns whatever the session pointer is, and
    without a session the host name it passes to the defer or bounce
    service, once for every recipient that is left, is ["none"]. The
    other three routines read the name through the session pointer
    without a test, where they use it: with a session they return (for
    [smtp_rcpt_fail] given a recipient of the request, for
    [smtp_stream_except] given a known exception code) and the name of
    the session is what [smtp_mesg_fail] passes for every recipient that
    is left, what [smtp_rcpt_fail] passes for its recipient, and what
    [smtp_stream_except] puts into its text; without one,
    [smtp_mesg_fail] faults as soon as it has a recipient to defer or
    bounce, [smtp_rcpt_fail] faults in its disposition branch, and
    [smtp_stream_except] faults on every known exception code. Where
    they do not use the name they do not read it: [smtp_mesg_fail] and
    [smtp_rcpt_fail] return from the branch that skips the site, and
    [smtp_mesg_fail] returns when no recipient is left, with or without
    a session. *)
Theorem session_precondition (state : SMTP_STATE) (code : Z) (why : string)
    (kind : Z) (description : string) (log : list event) :
  (exists w',
     smtp_site_fail state code why log = Done (-1, w') /\
     relays_are (site_relay state) log (snd w')) /\
  (session state = None -> site_relay state = "none"%string) /\
  (forall s, session state = Some s ->
     site_relay state = namaddr s /\
     (exists w',
        smtp_mesg_fail state code why log = Done (-1, w') /\
        relays_are (namaddr s) log (snd w')) /\
     (forall nrcpt : nat,
        is_Some (rcpt_list (request state) !! nrcpt) \/
        disposition_branch state code = false ->
        exists w',
          smtp_rcpt_fail state code nrcpt why log = Done w' /\
          relays_are (namaddr s) log (snd w')) /\
     (kind = SMTP_ERR_EOF \/ kind = SMTP_ERR_TIME ->
        exists w',
          smtp_stream_except state kind description log = Done (-1, w') /\
          relays_are (namaddr s) log (snd w'))) /\
  (session state = None ->
     (smtp_mesg_fail state code why log = Fault <->
        disposition_branch state code = true /\
        exists r, r ∈ rcpt_list (request state) /\ offset r <> 0) /\
     (forall nrcpt : nat,
        disposition_branch state code = true ->
        smtp_rcpt_fail state code nrcpt why log = Fault) /\
     (kind = SMTP_ERR_EOF \/ kind = SMTP_ERR_TIME ->
        smtp_stream_except state kind description log = Fault)) /\
  (session state = None ->
   disposition_branch state code = true ->
   exists w' new,
     smtp_site_fail state code why log = Done (-1, w') /\
     snd w' = log ++ new /\
     filter (fun e => is_completed e = false) new =
     map (fun r => append_event (SMTP_SOFT code)
                     (append_args (request state) r "none" why))
         (filter (fun r => offset r <> 0) (rcpt_list (request state)))) /\
  (forall s, session state = Some s ->
     (disposition_branch state code = true ->
      (exists w' new,
         smtp_mesg_fail state code why log = Done (-1, w') /\
         snd w' = log ++ new /\
         filter (fun e => is_completed e = false) new =
         map (fun r => append_event (SMTP_SOFT code)
                         (append_args (request state) r (namaddr s) why))
             (filter (fun r => offset r <> 0)
                (rcpt_list (request state)))) /\
      (forall (nrcpt : nat) r,
         rcpt_list (request state) !! nrcpt = Some r ->
         exists w' post,
           smtp_rcpt_fail state code nrcpt why log = Done w' /\
           snd w' =
           log ++ append_event (SMTP_SOFT code)
                    (append_args (request state) r (namaddr s) why)
               :: post)) /\
     (kind = SMTP_ERR_EOF \/ kind = SMTP_ERR_TIME ->
      exists w' txt,
        smtp_stream_except state kind description log = Done (-1, w') /\
        (kind = SMTP_ERR_EOF -> txt = eof_why (namaddr s) description) /\
        (kind <> SMTP_ERR_EOF -> txt = time_why (namaddr s) description) /\
        snd w' =
        log ++
        if final_server state =? 0
        then [Ev_msg_info (queue_id (request state)) txt]
        else map (fun r => Ev_defer_append
                             (append_args (request state) r (namaddr s)
                                txt))
                 (filter (fun r => offset r <> 0)
                    (rcpt_list (request state))))) /\
  (disposition_branch state code = false ->
   smtp_mesg_fail state code why log =
   Done (-1, (smtp_check_code
                (set_status state (Z.lor (status state) (-1))) code,
              log ++ [Ev_msg_info (queue_id (request state)) why])) /\
   forall nrcpt : nat,
     smtp_rcpt_fail state code nrcpt why log =
     Done (set_status (smtp_check_code state code)
             (Z.lor (status (smtp_check_code state code)) (-1)),
           log ++ [Ev_msg_info (queue_id (request state)) why])) /\
  ((forall r, r ∈ rcpt_list (request state) -> offset r = 0) ->
   exists w',
     smtp_mesg_fail state code why log = Done (-1, w') /\ snd w' = log ++
       if disposition_branch state code
       then []
       else [Ev_msg_info (queue_id (request state)) why]).
Proof.
  destruct (session_cases state code why kind description log)
    as (H1 & H2 & H3 & H4).
  do 4 (split; [done|]). split; [|split; [|split]].
  - intros Hs B.
    destruct (site_fail_dispose state code why log B)
      as (rcpts' & st' & log' & Hl & E).
    unfold site_relay in Hl. rewrite Hs in Hl.
    apply dispose_loop_calls in Hl as (new & -> & Hnew).
    eexists _, new. split; [exact E|]. done.
  - intros s Hs. split.
    + intros B. split.
      * destruct (mesg_fail_total state code why log s Hs B)
          as (rcpts' & st' & log' & Hl & E).
        apply dispose_loop_calls in Hl as (new & -> & Hnew).
        eexists _, new. split; [exact E|]. done.
      * intros nrcpt r Hr.
        rewrite (rcpt_fail_dispose state code nrcpt why log r s B Hr Hs).
        cbv zeta. destruct (append_result _ _ _ =? 0);
          eexists _, _; (split; [done|]); simpl; done.
    + intros Hk.
      destruct (stream_except_known state kind description log s Hs Hk)
        as (txt & _ & He1 & He2 & E).
      rewrite E. destruct (final_server state =? 0).
      * eexists _, txt. done.
      * destruct (defer_loop_spec (request state) (namaddr s) txt
                    (rcpt_list (request state)) (status state) log)
          as (st' & -> & _).
        simpl. eexists _, txt. done.
  - intros B. split; [by apply mesg_fail_skip|].
    intros nrcpt. by apply rcpt_fail_skip.
  - intros Hall. destruct (disposition_branch state code) eqn:B.
    + rewrite (mesg_fail_dispose state code why log B).
      rewrite dispose_loop_nothing by (by apply Forall_forall).
      simpl. eexists. split; [done|]. simpl. by rewrite app_nil_r.
    + rewrite (mesg_fail_skip state code why log B). by eexists.
Qed.


End Trouble.

(** ** The response code classification *)

Lemma SMTP_SOFT_range code : SMTP_SOFT code = true <-> 400 <= code <= 499.
Proof.
  unfold SMTP_SOFT. rewrite Z.eqb_eq. split.
  - intros H. destruct (Z.le_gt_cases 0 code) as [Hc|Hc].
    + pose proof (Z.quot_rem' code 100) as Hq.
      pose proof (Z.rem_bound_pos code 100 Hc ltac:(lia)). lia.
    + pose proof (Z.quot_opp_l (- code) 100 ltac:(lia)) as Hq.
      rewrite Z.opp_involutive in Hq.
      pose proof (Z.quot_pos (- code) 100 ltac:(lia) ltac:(lia)). lia.
  - intros H. symmetry. apply Z.quot_unique with (r := code - 400); lia.
Qed.

Lemma SMTP_HARD_range code : SMTP_HARD code = true <-> 500 <= code <= 599.
Proof.
  unfold SMTP_HARD. rewrite Z.eqb_eq. split.
  - intros H. destruct (Z.le_gt_cases 0 code) as [Hc|Hc].
    + pose proof (Z.quot_rem' code 100) as Hq.
      pose proof (Z.rem_bound_pos code 100 Hc ltac:(lia)). lia.
    + pose proof (Z.quot_opp_l (- code) 100 ltac:(lia)) as Hq.
      rewrite Z.opp_involutive in Hq.
      pose proof (Z.quot_pos (- code) 100 ltac:(lia) ltac:(lia)). lia.
  - intros H. symmetry. apply Z.quot_unique with (r := code - 500); lia.
Qed.

Lemma first_digit_range code d :
  0 <= code -> (code / 100 = d <-> 100 * d <= code <= 100 * d + 99).
Proof.
  intros Hc. pose proof (Z.div_mod code 100 ltac:(lia)).
  pose proof (Z.mod_pos_bound code 100 ltac:(lia)). lia.
Qed.

(** C7, as the code has it. For a three digit code the class is Soft when
    the first digit is 4, Hard when it is 5 and Neither otherwise; the
    code is a protocol anomaly exactly when its first digit is neither 4
    nor 5, or it is 555, or it lies in 500..509. So 450, 421 and 499 are
    Soft; 550, 552 and 503 are Hard; 250 and 354 are Neither; 555 is Hard,
    not Neither, and an anomaly; 501 is Hard and an anomaly. *)
Theorem classify_three_digit (code : Z) :
  100 <= code <= 999 ->
  (code / 100 = 4 -> classify code = Soft) /\
  (code / 100 = 5 -> classify code = Hard) /\
  (code / 100 <> 4 -> code / 100 <> 5 -> classify code = Neither) /\
  (protocol_anomaly code = true <->
     (code / 100 <> 4 /\ code / 100 <> 5) \/ code = 555 \/
     500 <= code <= 509) /\
  classify 450 = Soft /\ classify 421 = Soft /\ classify 499 = Soft /\
  classify 550 = Hard /\ classify 552 = Hard /\ classify 503 = Hard /\
  classify 250 = Neither /\ classify 354 = Neither /\
  classify 555 = Hard /\ protocol_anomaly 555 = true /\
  classify 501 = Hard /\ protocol_anomaly 501 = true.
Proof.
  intros Hc.
  pose proof (first_digit_range code 4 ltac:(lia)) as H4.
  pose proof (first_digit_range code 5 ltac:(lia)) as H5.
  pose proof (SMTP_SOFT_range code) as Hs.
  pose proof (SMTP_HARD_range code) as Hh.
  split; [|split; [|split; [|split]]].
  - intros Hd. unfold classify.
    destruct (SMTP_SOFT code); [done|]. lia.
  - intros Hd. unfold classify.
    destruct (SMTP_SOFT code); [lia|].
    destruct (SMTP_HARD code); [done|]. lia.
  - intros Hd4 Hd5. unfold classify.
    destruct (SMTP_SOFT code); [lia|].
    destruct (SMTP_HARD code); [lia|]. done.
  - unfold protocol_anomaly.
    rewrite !orb_true_iff, !andb_true_iff, !negb_true_iff,
      Z.eqb_eq, Z.leb_le, Z.ltb_lt.
    destruct (SMTP_SOFT code), (SMTP_HARD code); split; intros H; lia.
  - by vm_compute.
Qed.

(** C7, counterexample: 555 is in the Hard class, not in Neither. *)
Lemma classify_555_is_hard : classify 555 = Hard /\ classify 555 <> Neither.
Proof. split; [reflexivity | discriminate]. Qed.

Lemma classify_three_digit_witness :
  100 <= 450 <= 999 /\ classify 450 = Soft.
Proof.
  assert (H : 100 <= 450 <= 999) by lia.
  split; [exact H|].
  exact (proj1 (classify_three_digit 450 H) eq_refl).
Defined.

(** ** The request deadline *)

Lemma on_read_remaining b n t :
  (remaining (on_read b n t) ==
   Qmin (remaining b - t
         + (if negb (floor_rate b =? 0) && (0 <? n)
            then inject_Z n / inject_Z (floor_rate b) else 0))
        (ceiling b))%Q.
Proof.
  unfold on_read. simpl.
  destruct (negb (floor_rate b =? 0) && (0 <? n)).
  - destruct (Qle_bool _ (ceiling b)) eqn:E.
    + apply Qle_bool_iff in E. symmetry. by apply Q.min_l.
    + symmetry. apply Q.min_r. apply Qlt_le_weak, Qnot_le_lt.
      intros H. apply Qle_bool_iff in H. congruence.
  - rewrite Qplus_0_r.
    destruct (Qle_bool _ (ceiling b)) eqn:E.
    + apply Qle_bool_iff in E. symmetry. by apply Q.min_l.
    + symmetry. apply Q.min_r. apply Qlt_le_weak, Qnot_le_lt.
      intros H. apply Qle_bool_iff in H. congruence.
Qed.

(** C4, as the rule has it. [on_read] subtracts the elapsed time, adds
    [bytes_transferred / floor_rate] when the floor rate is not 0 and
    bytes were transferred, and clamps to the ceiling, so the budget never
    exceeds the ceiling. With ceiling 100, floor rate 500 and a start
    budget of 100, the reads (1000 bytes in 3s, 0 bytes in 50s, 0 bytes
    in 60s) in sequence leave 99, 49 and -11 (Exhausted); the figures 50
    and -10 are those of 0 bytes in 50s and then 0 bytes in 60s on a
    budget of 100. *)
Theorem on_read_budget (b : DeadlineBudget) (bytes_transferred : Z)
    (elapsed : Q) :
  (remaining (on_read b bytes_transferred elapsed) ==
   Qmin (remaining b - elapsed
         + (if negb (floor_rate b =? 0) && (0 <? bytes_transferred)
            then inject_Z bytes_transferred / inject_Z (floor_rate b)
            else 0))
        (ceiling b))%Q /\
  (remaining (on_read b bytes_transferred elapsed) <= ceiling b)%Q /\
  ceiling (on_read b bytes_transferred elapsed) = ceiling b /\
  floor_rate (on_read b bytes_transferred elapsed) = floor_rate b /\
  (let b0 := start 100 100 500 in
   Forall2 Qeq
     (map remaining (on_reads b0 [(1000, 3%Q); (0, 50%Q); (0, 60%Q)]))
     [99%Q; 49%Q; (-11)%Q] /\
   map tracker_state_of (on_reads b0 [(1000, 3%Q); (0, 50%Q); (0, 60%Q)])
     = [Active; Active; Exhausted] /\
   Forall2 Qeq
     (map remaining (on_reads b0 [(0, 50%Q); (0, 60%Q)]))
     [50%Q; (-10)%Q] /\
   map tracker_state_of (on_reads b0 [(0, 50%Q); (0, 60%Q)])
     = [Active; Exhausted]).
Proof.
  split; [apply on_read_remaining|]. split.
  { rewrite on_read_remaining. apply Q.le_min_r. }
  split; [done|]. split; [done|].
  cbv zeta. split; [|split; [|split]].
  - repeat constructor; reflexivity.
  - reflexivity.
  - repeat constructor; reflexivity.
  - reflexivity.
Qed.

(** C4, counterexample: in sequence the second read leaves 49, not 50,
    and the third leaves -11, not -10. *)
Lemma on_reads_sequence_not_50 :
  ~ Forall2 Qeq
      (map remaining
         (on_reads (start 100 100 500)
            [(1000, 3%Q); (0, 50%Q); (0, 60%Q)]))
      [99%Q; 50%Q; (-10)%Q].
Proof.
  intros H. inversion H as [|x y l k _ H1]; subst.
  inversion H1 as [|x' y' l' k' H2 _]; subst.
  vm_compute in H2. discriminate.
Qed.

(** ** The policies on the sample request *)

(** A soft site failure before the final server, a hard failure of the
    first recipient, then a hard message failure: the second and the
    fourth world of the run. *)
Lemma recipient_marker_invariant_witness :
  let w0 := (sample_state (Some sample_session) 0, []) in
  let cs :=
    [Site_fail 421 "too busy"; Rcpt_fail 550 0 "user unknown";
     Mesg_fail 550 "message rejected"] in
  let run :=
    run_calls 2 1 2 sample_trace_flags (service_result 0) (service_result 0)
      cs w0 in
  let wj := nth 1 run w0 in
  let wk := nth 3 run w0 in
  run !! 1%nat = Some wj /\ run !! 3%nat = Some wk /\ (1 <= 3)%nat /\
  rcpt_calls_pending 2 1 2 sample_trace_flags (service_result 0)
    (service_result 0) cs w0 = true /\
  (finalized (rcpts_of wk) + pending (rcpts_of wk))%nat
    = length (rcpts_of w0) /\
  (forall (i : nat) r, rcpts_of wj !! i = Some r ->
     exists r', rcpts_of wk !! i = Some r' /\ marker_step r r') /\
  (forall (i : nat) r, rcpts_of wj !! i = Some r -> offset r = 0 ->
     rcpts_of wk !! i = Some r) /\
  (exists new,
     snd wk = snd wj ++ new /\
     (forall e off, e ∈ new -> event_offset e = Some off -> off <> 0) /\
     (finalized (rcpts_of wj)
      + length (filter (fun e => is_completed e = true) new))%nat
     = finalized (rcpts_of wk)).
Proof.
  intros w0 cs run wj wk.
  assert (Hj : run !! 1%nat = Some wj) by reflexivity.
  assert (Hk : run !! 3%nat = Some wk) by reflexivity.
  assert (Hjk : (1 <= 3)%nat) by lia.
  assert (Hp : rcpt_calls_pending 2 1 2 sample_trace_flags (service_result 0)
                 (service_result 0) cs w0 = true) by reflexivity.
  pose proof (recipient_marker_invariant 2 1 2 sample_trace_flags
                (service_result 0) (service_result 0) _ _ _ _ _ _ Hj Hk Hjk)
    as (H1 & H2 & H3 & _ & _ & H6).
  exact (conj Hj (conj Hk (conj Hjk (conj Hp
           (conj H1 (conj H2 (conj H3 (H6 Hp)))))))).
Defined.

Lemma final_server_monotonic_witness :
  let w := (sample_state (Some sample_session) 1, []) in
  let r :=
    step 2 1 2 sample_trace_flags (service_result 0) (service_result 1)
      (Rcpt_fail 550 0 "user unknown") w in
  r = Done (result_or w r) /\
  (final_server (fst (result_or w r)) = final_server (fst w) \/
   final_server (fst (result_or w r)) = 1) /\
  (final_server (fst w) <> 0 -> final_server (fst (result_or w r)) <> 0).
Proof.
  intros w r.
  assert (H : r = Done (result_or w r)) by reflexivity.
  exact (conj H (final_server_monotonic 2 1 2 sample_trace_flags
                   (service_result 0) (service_result 1) _ _ _ H)).
Defined.

Lemma error_mask_after_call_witness :
  let w := (sample_state (Some sample_session) 0, []) in
  let r :=
    step 2 1 2 sample_trace_flags (service_result 0) (service_result 0)
      (Rcpt_fail 501 0 "bad recipient syntax") w in
  r = Done (result_or w r) /\
  error_mask (fst (result_or w r)) = Z.lor (error_mask (fst w)) 2.
Proof.
  intros w r.
  assert (H : r = Done (result_or w r)) by reflexivity.
  exact (conj H (error_mask_after_call 2 1 2 sample_trace_flags
                   (service_result 0) (service_result 0) _ _ _ H)).
Defined.

Lemma stream_except_policy_witness :
  let state := sample_state (Some sample_session) 1 in
  session state = Some sample_session /\
  (exists st',
     smtp_stream_except 1 2 sample_trace_flags (service_result 0)
       state 1 "sending end of data" [] =
     Done (-1,
           (set_status state st',
            map (fun r => Ev_defer_append
                            (append_args sample_trace_flags (request state) r
                               (namaddr sample_session)
                               (eof_why (namaddr sample_session)
                                  "sending end of data")))
                (filter (fun r => offset r <> 0)
                   (rcpt_list (request state)))))) /\
  smtp_stream_except 1 2 sample_trace_flags (service_result 0)
    state 3 "sending end of data" [] = Panic 3.
Proof.
  intros state.
  assert (H : session state = Some sample_session) by reflexivity.
  split; [exact H|]. split.
  - destruct (proj1 (stream_except_policy 1 2 sample_trace_flags
                       (service_result 0) state 1 "sending end of data" []
                       sample_session H) (or_introl eq_refl))
      as (why & Hw & _ & _ & Hfin).
    rewrite (Hw eq_refl) in Hfin. apply Hfin. discriminate.
  - apply (proj2 (stream_except_policy 1 2 sample_trace_flags
                    (service_result 0) state 3 "sending end of data" []
                    sample_session H)); lia.
Defined.


Lemma final_server_frame_witness :
  let state := sample_state (Some sample_session) 0 in
  disposition_branch state 550 = true /\
  (forall nrcpt w',
     smtp_rcpt_fail 2 sample_trace_flags (service_result 0)
       (service_result 0) state 550 nrcpt "rejected" [] = Done w' ->
     final_server (fst w') = final_server state) /\
  (exists w',
     smtp_site_fail 2 sample_trace_flags (service_result 0)
       (service_result 0) state 550 "rejected" [] = Done (-1, w') /\
     final_server (fst w') = 1).
Proof.
  intros state.
  assert (B : disposition_branch state 550 = true) by reflexivity.
  pose proof (final_server_frame 2 1 2 sample_trace_flags (service_result 0)
                (service_result 0) state 550 "rejected" [])
    as (Hr & Hs & _).
  exact (conj B (conj Hr (Hs B))).
Defined.

Lemma hop_status_first_write_wins_witness :
  let w := (sample_state (Some sample_session) 1, []) in
  SMTP_SOFT 450 = true /\ final_server (fst w) <> 0 /\ hop_of w = None /\
  exists w',
    step 2 1 2 sample_trace_flags (service_result (-1)) (service_result 0)
      (Site_fail 450 "temp fail") w = Done w' /\
    hop_of w' = Some "temp fail"%string.
Proof.
  intros w.
  assert (Hs : SMTP_SOFT 450 = true) by reflexivity.
  assert (Hf : final_server (fst w) <> 0) by discriminate.
  assert (Hh : hop_of w = None) by reflexivity.
  pose proof (hop_status_first_write_wins 2 1 2 sample_trace_flags
                (service_result (-1)) (service_result 0) w)
    as (_ & Hw & _).
  exact (conj Hs (conj Hf (conj Hh (Hw 450 "temp fail"%string Hs Hf Hh)))).
Defined.

(** Without a session on the final server: [smtp_site_fail] bounces the
    two recipients that are left with the host name ["none"], the other
    routines fault. *)
Lemma session_precondition_witness :
  let state := sample_state None 1 in
  session state = None /\
  disposition_branch state 550 = true /\
  site_relay state = "none"%string /\
  (exists w' new,
     smtp_site_fail 2 sample_trace_flags (service_result 0)
       (service_result 0) state 550 "no route" [] = Done (-1, w') /\
     snd w' = [] ++ new /\
     filter (fun e => is_completed e = false) new =
     map (fun r => append_event (SMTP_SOFT 550)
                     (append_args sample_trace_flags (request state) r
                        "none" "no route"))
         (filter (fun r => offset r <> 0) (rcpt_list (request state)))) /\
  smtp_rcpt_fail 2 sample_trace_flags (service_result 0) (service_result 0)
    state 550 0 "no route" [] = Fault /\
  smtp_stream_except 1 2 sample_trace_flags (service_result 0)
    state 2 "sending RCPT TO" [] = Fault.
Proof.
  intros state.
  assert (Hn : session state = None) by reflexivity.
  assert (B : disposition_branch state 550 = true) by reflexivity.
  pose proof (session_precondition 2 1 2 sample_trace_flags
                (service_result 0) (service_result 0) state 550 "no route"
                2 "sending RCPT TO" [])
    as (_ & Hnone & _ & Hfault & Hsite & _).
  destruct (Hfault Hn) as (_ & Hrcpt & Hexc).
  exact (conj Hn (conj B (conj (Hnone Hn)
           (conj (Hsite Hn B) (conj (Hrcpt 0%nat B)
                                 (Hexc (or_intror eq_refl))))))).
Defined.

(** C8, counterexample: [smtp_stream_except] with the code of a lost
    connection leaves the error mask alone, although the code is neither
    4xx nor 5xx. *)
Lemma stream_except_skips_check_code :
  ~ (forall c w w',
       step 2 1 2 sample_trace_flags (service_result 0) (service_result 0)
         c w = Done w' ->
       error_mask (fst w') =
       Z.lor (error_mask (fst w))
         (if protocol_anomaly (call_code c) then 2 else 0)).
Proof.
  intros H.
  specialize (H (Stream_except 1 "sending end of data")
                (sample_state (Some sample_session) 0, []) _ eq_refl).
  vm_compute in H. discriminate.
Qed.

(** C5, counterexample: on the final server, with a [defer_append] that
    succeeds, the recipients that were left are still left after the
    call, and [deliver_completed] was not called. *)
Lemma stream_except_leaves_recipients_pending :
  exists w',
    smtp_stream_except 1 2 sample_trace_flags (service_result 0)
      (sample_state (Some sample_session) 1) 1 "sending end of data" []
    = Done (-1, w') /\
    rcpts_of w' = sample_rcpts /\
    pending (rcpts_of w') = 2%nat /\
    ~ (forall r, r ∈ rcpts_of w' -> offset r = 0) /\
    (forall e, e ∈ snd w' -> is_completed e = false).
Proof.
  eexists. split; [reflexivity|]. split; [reflexivity|].
  split; [reflexivity|]. split.
  - intros H.
    specialize (H (mk_RECIPIENT 120 "" "alice@example.com")
                  ltac:(by left)).
    discriminate.
  - intros e He. simpl in He.
    repeat (apply elem_of_cons in He as [-> | He]; [reflexivity|]).
    by apply elem_of_nil in He.
Qed.


(** C1, counterexample: [smtp_rcpt_fail] twice with a hard code for the
    first sample recipient. The first call bounces it and clears its
    offset; the second call, which is given a recipient that is done,
    bounces it again, with offset 0, and calls [deliver_completed] a
    second time: two completion calls for one recipient that became
    done. *)
Lemma rcpt_fail_twice_finalizes_twice :
  let w0 := (sample_state (Some sample_session) 0, []) in
  let c := Rcpt_fail 550 0 "user unknown" in
  let alice := mk_RECIPIENT 120 "" "alice@example.com" in
  let bounce r :=
    Ev_bounce_append
      (append_args sample_trace_flags sample_request r
         "mx1.example.com[192.0.2.1]" "user unknown") in
  exists w1 w2,
    run_calls 2 1 2 sample_trace_flags (service_result 0) (service_result 0)
      [c; c] w0 = [w0; w1; w2] /\
    rcpts_of w1 !! 0%nat = Some (set_offset alice 0) /\
    rcpt_call_pending c w1 = false /\
    snd w2 = [bounce alice; Ev_deliver_completed 7 120;
              bounce (set_offset alice 0); Ev_deliver_completed 7 0] /\
    finalized (rcpts_of w0) = 1%nat /\
    finalized (rcpts_of w2) = 2%nat /\
    length (filter (fun e => is_completed e = true) (snd w2)) = 2%nat /\
    ~ finalizes_pending_once w0 w2.
Proof.
  intros w0 c alice bounce. eexists _, _.
  split; [reflexivity|]. do 6 (split; [reflexivity|]).
  intros (new & Hlog & Hoff & _). simpl in Hlog. subst new.
  apply (Hoff (bounce (set_offset alice 0)) 0); [|reflexivity..].
  do 2 (apply elem_of_cons; right). apply elem_of_cons. by left.
Qed.

(** On the final server [smtp_stream_except] leaves the recipients it
    defers as they are, so a soft site failure after it defers each of
    them once more. *)
Example stream_except_then_site_fail_defers_again :
  let w0 := (sample_state (Some sample_session) 1, []) in
  let run :=
    run_calls 2 1 2 sample_trace_flags (service_result 0) (service_result 0)
      [Stream_except 2 "sending end of data"; Site_fail 450 "try again later"]
      w0 in
  exists w1 w2,
    run = [w0; w1; w2] /\
    map event_offset (snd w1) = [Some 120; Some 184] /\
    map event_offset (snd w2) =
      [Some 120; Some 184; Some 120; Some 120; Some 184; Some 184] /\
    map is_defer (snd w2) = [true; true; true; false; true; false].
Proof. eexists _, _. repeat split. Qed.

(** On the final server, with a [defer_append] that fails with 4: the
    result is in the status, the recipients are as they were. *)
Example stream_except_folds_defer_result :
  smtp_stream_except 1 2 sample_trace_flags (service_result 4)
    (sample_state (Some sample_session) 1) 1 "sending end of data" []
  = Done (-1,
          (set_status (sample_state (Some sample_session) 1) 4,
           map (fun r =>
                  Ev_defer_append
                    (append_args sample_trace_flags sample_request r
                       "mx1.example.com[192.0.2.1]"
                       (eof_why "mx1.example.com[192.0.2.1]"
                          "sending end of data")))
               [mk_RECIPIENT 120 "" "alice@example.com";
                mk_RECIPIENT 184 "carol@old.example" "carol@example.com"])).
Proof. reflexivity. Qed.


(** C10, counterexample: without a session, with a soft code before the
    final server, [smtp_mesg_fail] and [smtp_rcpt_fail] return: they log
    the text and do not read the host name. That a null session makes
    them fault holds in the disposition branch only. *)
Lemma mesg_and_rcpt_fail_skip_without_session :
  let state := sample_state None 0 in
  let skipped :=
    (set_status state (-1), [Ev_msg_info "4F1C2A" "try again later"]) in
  session state = None /\
  smtp_mesg_fail 2 sample_trace_flags (service_result 0) (service_result 0)
    state 450 "try again later" [] = Done (-1, skipped) /\
  smtp_rcpt_fail 2 sample_trace_flags (service_result 0) (service_result 0)
    state 450 0 "try again later" [] = Done skipped /\
  ~ (forall st code why log,
       session st = None ->
       smtp_mesg_fail 2 sample_trace_flags (service_result 0)
         (service_result 0) st code why log = Fault) /\
  ~ (forall st code nrcpt why log,
       session st = None ->
       smtp_rcpt_fail 2 sample_trace_flags (service_result 0)
         (service_result 0) st code nrcpt why log = Fault).
Proof.
  intros state skipped. do 3 (split; [reflexivity|]). split.
  - intros H.
    specialize (H state 450 "try again later"%string [] eq_refl).
    discriminate.
  - intros H.
    specialize (H state 450 0%nat "try again later"%string [] eq_refl).
    discriminate.
Qed.


(** ** The scenarios of the design notes, run on the code *)

(** A hard message failure: every recipient that was left is bounced with
    the text of the call and ends with offset 0, and the flag is raised. *)
Example mesg_fail_550_bounces_all :
  let r :=
    smtp_mesg_fail 2 sample_trace_flags (service_result 0) (service_result 0)
      (sample_state (Some sample_session) 1) 550 "message rejected" [] in
  let w' := snd (result_or (0, (sample_state None 0, [])) r) in
  fst (result_or (0, (sample_state None 0, [])) r) = -1 /\
  map offset (rcpts_of w') = [0; 0; 0] /\
  final_server (fst w') = 1 /\
  status (fst w') = 0 /\
  error_mask (fst w') = 0 /\
  map event_offset (snd w')
    = [Some 120; Some 120; Some 184; Some 184] /\
  map is_completed (snd w') = [false; true; false; true].
Proof. repeat split; reflexivity. Qed.

(** A soft site failure with more servers to try, then a soft site failure
    on the final server. *)
Example site_fail_421_then_450 :
  let s1 := sample_state (Some sample_session) 0 in
  let w1 :=
    snd (result_or (0, (s1, []))
           (smtp_site_fail 2 sample_trace_flags (service_result (-1))
              (service_result 0) s1 421 "too busy" [])) in
  let s2 := set_final_server (fst w1) 1 in
  let w2 :=
    snd (result_or (0, (s2, []))
           (smtp_site_fail 2 sample_trace_flags (service_result (-1))
              (service_result 0) s2 450 "temp fail" (snd w1))) in
  rcpts_of w1 = sample_rcpts /\
  final_server (fst w1) = 0 /\
  hop_of w1 = None /\
  status (fst w1) = -1 /\
  snd w1 = [Ev_msg_info "4F1C2A" "too busy"] /\
  rcpts_of w2 = sample_rcpts /\
  final_server (fst w2) = 1 /\
  hop_of w2 = Some "temp fail"%string /\
  map event_offset (snd w2) = [None; Some 120; Some 184].
Proof. repeat split; reflexivity. Qed.

(** A hard recipient failure bounces that recipient only and leaves the
    flag alone. *)
Example rcpt_fail_550_bounces_one :
  let s := sample_state (Some sample_session) 0 in
  let w' :=
    result_or (s, [])
      (smtp_rcpt_fail 2 sample_trace_flags (service_result 0)
         (service_result 0) s 550 2 "user unknown" []) in
  map offset (rcpts_of w') = [120; 0; 0] /\
  final_server (fst w') = 0 /\
  snd w' =
    [Ev_bounce_append
       (mk_APPEND_ARGS 0 "4F1C2A" "carol@old.example" "carol@example.com"
          184 "mx1.example.com[192.0.2.1]" 1000000 "user unknown");
     Ev_deliver_completed 7 184].
Proof. repeat split; reflexivity. Qed.

(** The text of a stream exception, and the panic on an unknown code. *)
Example stream_except_texts :
  let s := sample_state (Some sample_session) 0 in
  (snd (snd (result_or (0, (s, []))
               (smtp_stream_except 1 2 sample_trace_flags (service_result 0)
                  s 2 "sending MAIL FROM" []))) =
   [Ev_msg_info "4F1C2A"
      "conversation with mx1.example.com[192.0.2.1] timed out while sending MAIL FROM"]) /\
  smtp_stream_except 1 2 sample_trace_flags (service_result 0)
    s 0 "sending MAIL FROM" [] = Panic 0 /\
  smtp_stream_except 1 2 sample_trace_flags (service_result 0)
    (sample_state None 0) 1 "sending MAIL FROM" [] = Fault.
Proof. repeat split; reflexivity. Qed.

(** ** Default values of myhostname, mydomain and mynetworks *)

Lemma strchr_hit c t : strchr (String c t) c = Some (String c t).
Proof. simpl. by rewrite Ascii.eqb_refl. Qed.

Lemma strchr_app pre t c :
  strchr pre c = None -> strchr (pre +:+ t) c = strchr t c.
Proof.
  induction pre as [|a pre IH]; simpl; [done|].
  destruct (Ascii.eqb a c); [done|]. apply IH.
Qed.

Lemma strchr_split s c dot :
  strchr s c = Some dot ->
  exists pre rest,
    s = pre +:+ dot /\ strchr pre c = None /\ dot = String c rest.
Proof.
  induction s as [|a s IH]; simpl; [done|].
  destruct (Ascii.eqb a c) eqn:E.
  - intros H. simplify_eq. apply Ascii.eqb_eq in E. subst.
    by exists EmptyString, s.
  - intros H. destruct (IH H) as (pre & rest & -> & Hpre & ->).
    exists (String a pre), rest. simpl. by rewrite E.
Qed.

(** X15. The host name that [pcf_check_myhostname] computes always has a
    dot in it. A machine name with a dot is used as it is and main.cf is
    not consulted; a machine name without one gets a dot and the value of
    [mydomain] from main.cf appended, or the built-in default domain when
    main.cf has none. The result is stored in the cache. *)
Theorem myhostname_is_fqdn (env : PCF_ENV) (st : PCF_STATE) :
  myhostname_name st = None ->
  let r := pcf_check_myhostname env st in
  strchr (fst r) "."%char <> None /\
  myhostname_name (snd r) = Some (fst r) /\
  (strchr (get_hostname env) "."%char <> None ->
     fst r = get_hostname env /\
     pcf_calls (snd r) = pcf_calls st ++ [Pcf_get_hostname]) /\
  (strchr (get_hostname env) "."%char = None ->
     fst r =
       get_hostname env +:+ "." +:+
       default (DEF_MYDOMAIN env)
         (mail_conf_lookup_eval env (VAR_MYDOMAIN env)) /\
     pcf_calls (snd r) =
       pcf_calls st ++
       [Pcf_get_hostname; Pcf_lookup_eval (VAR_MYDOMAIN env)]).
Proof.
  intros Hc. unfold pcf_check_myhostname. rewrite Hc.
  destruct (strchr (get_hostname env) "."%char) as [dot|] eqn:Hd; simpl.
  - repeat split; try done. by rewrite Hd.
  - assert (Hn : forall d,
              strchr (get_hostname env +:+ "." +:+ d) "."%char <> None).
    { intros d. rewrite strchr_app by done. simpl. done. }
    split; [|split; [done|split; [done|]]].
    + destruct (mail_conf_lookup_eval env (VAR_MYDOMAIN env)); apply Hn.
    + intros _. split.
      * by destruct (mail_conf_lookup_eval env (VAR_MYDOMAIN env)).
      * rewrite <- app_assoc. done.
Qed.

Lemma myhostname_is_fqdn_witness :
  let r := pcf_check_myhostname sample_env pcf_initial in
  myhostname_name pcf_initial = None /\
  fst r = "mail.example.com"%string /\
  strchr (fst r) "."%char <> None.
Proof.
  intros r.
  assert (H : myhostname_name pcf_initial = None) by reflexivity.
  pose proof (myhostname_is_fqdn sample_env pcf_initial H)
    as (Hdot & _ & _ & Hno).
  split; [exact H|]. split; [|exact Hdot].
  exact (proj1 (Hno eq_refl)).
Defined.

Lemma check_myhostname_frame env st :
  let r := pcf_check_myhostname env st in
  myhostname_name (snd r) = Some (fst r) /\
  mydomainname_domain (snd r) = mydomainname_domain st /\
  mynetworks_networks (snd r) = mynetworks_networks st /\
  var_myhostname (snd r) = var_myhostname st /\
  exists new,
    pcf_calls (snd r) = pcf_calls st ++ new /\
    (myhostname_name st <> None -> new = []).
Proof.
  unfold pcf_check_myhostname.
  destruct (myhostname_name st) as [n|] eqn:Hc; simpl.
  - repeat split; try done. exists []. by rewrite app_nil_r.
  - destruct (strchr (get_hostname env) "."%char); simpl.
    + repeat split; try done. eexists. by split.
    + repeat split; try done. eexists. rewrite <- app_assoc. by split.
Qed.

Lemma get_myhostname_sets env st :
  exists h,
    var_myhostname (pcf_get_myhostname env st) = Some h /\
    mydomainname_domain (pcf_get_myhostname env st)
    = mydomainname_domain st /\
    (forall v, mail_conf_lookup_eval env (VAR_MYHOSTNAME env) = Some v ->
       h = v /\
       pcf_calls (pcf_get_myhostname env st)
       = pcf_calls st ++ [Pcf_lookup_eval (VAR_MYHOSTNAME env)]).
Proof.
  unfold pcf_get_myhostname, pcf_lookup.
  destruct (mail_conf_lookup_eval env (VAR_MYHOSTNAME env)) as [v|]; simpl.
  - exists v. repeat split; try done; intros; by simplify_eq.
  - pose proof (check_myhostname_frame env
                  (pcf_call (Pcf_lookup_eval (VAR_MYHOSTNAME env)) st))
      as (_ & Hd & _).
    destruct (pcf_check_myhostname env _) as [n st2]. simpl in *.
    exists n. by repeat split.
Qed.

(** X16. The cached defaults are computed once: a second call of
    [pcf_check_myhostname], [pcf_check_mydomainname] or [pcf_mynetworks]
    returns the value of the first and changes nothing, so it makes no
    call of the host name, main.cf, expansion or network services. *)
Theorem defaults_computed_once (env : PCF_ENV) (st : PCF_STATE) :
  (let r := pcf_check_myhostname env st in
   pcf_check_myhostname env (snd r) = r) /\
  (forall r, pcf_check_mydomainname env st = Done r ->
             pcf_check_mydomainname env (snd r) = Done r) /\
  (let r := pcf_mynetworks env st in pcf_mynetworks env (snd r) = r).
Proof.
  split; [|split].
  - pose proof (check_myhostname_frame env st) as (Hc & _).
    cbv zeta in *. destruct (pcf_check_myhostname env st) as [n st1].
    simpl in *. unfold pcf_check_myhostname. by rewrite Hc.
  - intros [d st1]. unfold pcf_check_mydomainname at 1.
    destruct (mydomainname_domain st) as [d0|] eqn:Hc.
    + intros H. simplify_eq. simpl. unfold pcf_check_mydomainname.
      by rewrite Hc.
    + destruct (var_myhostname (match var_myhostname st with
                                | Some _ => st
                                | None => pcf_get_myhostname env st
                                end)) as [h|]; simpl; [|done].
      destruct (strchr h "."%char); intros H; simplify_eq; simpl;
        unfold pcf_check_mydomainname; done.
  - cbv zeta. unfold pcf_mynetworks at 2 3.
    destruct (mynetworks_networks st) as [n|] eqn:Hc; simpl.
    + unfold pcf_mynetworks. by rewrite Hc.
    + unfold pcf_mynetworks. done.
Qed.

(** X17. [pcf_check_mydomainname] never passes a null host name to
    [strchr]: it always returns, with the result cached. When it computes
    the domain, [var_myhostname] is set afterwards and the domain is what
    follows the first dot of that name, or the built-in default domain
    when the name has no dot; a [myhostname] from main.cf is used without
    asking for the machine name. *)
Theorem mydomainname_from_myhostname (env : PCF_ENV) (st : PCF_STATE) :
  exists d st',
    pcf_check_mydomainname env st = Done (d, st') /\
    mydomainname_domain st' = Some d /\
    (mydomainname_domain st = None ->
     exists h,
       var_myhostname st' = Some h /\
       (strchr h "."%char = None /\ d = DEF_MYDOMAIN env \/
        exists label,
          h = label +:+ "." +:+ d /\ strchr label "."%char = None) /\
       (var_myhostname st = None ->
        forall v, mail_conf_lookup_eval env (VAR_MYHOSTNAME env) = Some v ->
          h = v /\
          pcf_count is_get_hostname st' = pcf_count is_get_hostname st)).
Proof.
  unfold pcf_check_mydomainname.
  destruct (mydomainname_domain st) as [d0|] eqn:Hc.
  { exists d0, st. by repeat split. }
  assert (Hst1 : exists h,
            var_myhostname (match var_myhostname st with
                            | Some _ => st
                            | None => pcf_get_myhostname env st
                            end) = Some h /\
            (var_myhostname st = None ->
             forall v,
               mail_conf_lookup_eval env (VAR_MYHOSTNAME env) = Some v ->
               h = v /\
               pcf_calls (pcf_get_myhostname env st)
               = pcf_calls st ++ [Pcf_lookup_eval (VAR_MYHOSTNAME env)])).
  { destruct (var_myhostname st) as [h|] eqn:Hv; [by exists h|].
    destruct (get_myhostname_sets env st) as (h & Hh & _ & Hcfg).
    exists h. split; [done|]. intros _. apply Hcfg. }
  destruct Hst1 as (h & Hh & Hcfg). rewrite Hh. simpl.
  assert (Hcount : var_myhostname st = None ->
            forall v,
              mail_conf_lookup_eval env (VAR_MYHOSTNAME env) = Some v ->
              h = v /\
              pcf_count is_get_hostname
                (match var_myhostname st with
                 | Some _ => st
                 | None => pcf_get_myhostname env st
                 end) = pcf_count is_get_hostname st).
  { intros Hv v Hl. destruct (Hcfg Hv v Hl) as [-> Hcalls].
    split; [done|]. rewrite Hv. unfold pcf_count. rewrite Hcalls.
    rewrite List.filter_app, length_app. simpl. lia. }
  destruct (strchr h "."%char) as [dot|] eqn:Hd.
  - eexists _, _. split; [done|]. split; [done|]. intros _.
    exists h. split; [done|]. split; [|exact Hcount].
    right. destruct (strchr_split _ _ _ Hd) as (pre & rest & -> & Hpre & ->).
    exists pre. by split.
  - eexists _, _. split; [done|]. split; [done|]. intros _.
    exists h. split; [done|]. split; [by left | exact Hcount].
Qed.

(** X18. The default domain agrees with the default host name. When
    main.cf sets no [myhostname] and the machine name has no dot, the
    domain that [pcf_check_mydomainname] returns is the one that
    [pcf_check_myhostname] appended to the machine name: the [mydomain]
    of main.cf, or the built-in default domain. *)
Theorem mydomain_matches_myhostname (env : PCF_ENV) (st : PCF_STATE) :
  mydomainname_domain st = None ->
  var_myhostname st = None ->
  myhostname_name st = None ->
  mail_conf_lookup_eval env (VAR_MYHOSTNAME env) = None ->
  strchr (get_hostname env) "."%char = None ->
  let d :=
    default (DEF_MYDOMAIN env)
      (mail_conf_lookup_eval env (VAR_MYDOMAIN env)) in
  exists st',
    pcf_check_mydomainname env st = Done (d, st') /\
    var_myhostname st' = Some (get_hostname env +:+ "." +:+ d) /\
    myhostname_name st' = Some (get_hostname env +:+ "." +:+ d).
Proof.
  intros Hc Hv Hn Hl Hd d.
  unfold pcf_check_mydomainname, pcf_get_myhostname, pcf_lookup,
    pcf_check_myhostname.
  rewrite Hc, Hv, Hl. simpl. rewrite Hn, Hd. simpl.
  assert (Hs : strchr (get_hostname env +:+ "." +:+ d) "."%char
               = Some ("." +:+ d)).
  { rewrite strchr_app by done. done. }
  subst d.
  destruct (mail_conf_lookup_eval env (VAR_MYDOMAIN env)) as [v|]; simpl in *;
    rewrite Hs; simpl; eexists; done.
Qed.

Lemma mydomain_matches_myhostname_witness :
  mydomainname_domain pcf_initial = None /\
  var_myhostname pcf_initial = None /\
  myhostname_name pcf_initial = None /\
  mail_conf_lookup_eval sample_env (VAR_MYHOSTNAME sample_env) = None /\
  strchr (get_hostname sample_env) "."%char = None /\
  exists st',
    pcf_check_mydomainname sample_env pcf_initial
    = Done ("example.com"%string, st') /\
    var_myhostname st' = Some "mail.example.com"%string /\
    myhostname_name st' = Some "mail.example.com"%string.
Proof.
  assert (H1 : mydomainname_domain pcf_initial = None) by reflexivity.
  assert (H2 : var_myhostname pcf_initial = None) by reflexivity.
  assert (H3 : myhostname_name pcf_initial = None) by reflexivity.
  assert (H4 : mail_conf_lookup_eval sample_env (VAR_MYHOSTNAME sample_env)
               = None) by reflexivity.
  assert (H5 : strchr (get_hostname sample_env) "."%char = None)
    by reflexivity.
  exact (conj H1 (conj H2 (conj H3 (conj H4 (conj H5
           (mydomain_matches_myhostname sample_env pcf_initial
              H1 H2 H3 H4 H5)))))).
Defined.

(** Case analysis on everything [pcf_mynetworks] tests. *)
Ltac mynetworks_cases env st :=
  unfold pcf_mynetworks, pcf_mynetworks_value, pcf_lookup, pcf_count;
  destruct (Z.land (pcf_cmd_mode env) (PCF_SHOW_DEFS env) =? 0) eqn:?;
  destruct (var_inet_interfaces st) eqn:?;
  destruct (var_mynetworks_style st) eqn:?;
  destruct (var_inet_protocols st) eqn:?;
  simpl;
  repeat match goal with
         | H : ?x = _ |- context [?x] => rewrite H; simpl
         | |- context [match mail_conf_lookup_eval env ?n with _ => _ end] =>
             destruct (mail_conf_lookup_eval env n) eqn:?; simpl
         end.

(** X19. When defaults are being shown ([PCF_SHOW_DEFS] in the command
    mode) [pcf_mynetworks] does not consult main.cf at all: it makes no
    lookup, and every variable that was not set gets the expanded
    built-in default. *)
Theorem mynetworks_show_defs_ignores_main_cf (env : PCF_ENV)
    (st : PCF_STATE) :
  Z.land (pcf_cmd_mode env) (PCF_SHOW_DEFS env) <> 0 ->
  mynetworks_networks st = None ->
  let r := pcf_mynetworks env st in
  let expand := pcf_expand_parameter_value env (pcf_cmd_mode env) in
  pcf_count is_lookup_eval (snd r) = pcf_count is_lookup_eval st /\
  var_inet_interfaces (snd r) =
    Some (default (expand (DEF_INET_INTERFACES env))
            (var_inet_interfaces st)) /\
  var_mynetworks_style (snd r) =
    Some (default (expand (DEF_MYNETWORKS_STYLE env))
            (var_mynetworks_style st)) /\
  var_inet_protocols (snd r) =
    Some (default (expand (DEF_INET_PROTOCOLS env))
            (var_inet_protocols st)).
Proof.
  intros Hm Hc. apply Z.eqb_neq in Hm. cbv zeta.
  mynetworks_cases env st; try congruence;
    rewrite ?List.filter_app, ?length_app; simpl;
    repeat split; try done; lia.
Qed.

(** X20. [pcf_mynetworks] prepares the three variables that the network
    list is computed from and overwrites none of them: a variable that is
    set keeps its value, a variable that is not set is set afterwards, and
    outside the show-defaults mode a value from main.cf wins over the
    built-in default. The protocol library is initialized exactly when
    [var_inet_protocols] was not set, with the value stored there. *)
Theorem mynetworks_prepares_variables (env : PCF_ENV) (st : PCF_STATE) :
  mynetworks_networks st = None ->
  let r := pcf_mynetworks env st in
  ((forall v, var_inet_interfaces st = Some v ->
      var_inet_interfaces (snd r) = Some v) /\
   (forall v, var_mynetworks_style st = Some v ->
      var_mynetworks_style (snd r) = Some v) /\
   (forall v, var_inet_protocols st = Some v ->
      var_inet_protocols (snd r) = Some v)) /\
  (is_Some (var_inet_interfaces (snd r)) /\
   is_Some (var_mynetworks_style (snd r)) /\
   is_Some (var_inet_protocols (snd r))) /\
  (Z.land (pcf_cmd_mode env) (PCF_SHOW_DEFS env) = 0 ->
   (forall v, var_inet_interfaces st = None ->
      mail_conf_lookup_eval env (VAR_INET_INTERFACES env) = Some v ->
      var_inet_interfaces (snd r) = Some v) /\
   (forall v, var_mynetworks_style st = None ->
      mail_conf_lookup_eval env (VAR_MYNETWORKS_STYLE env) = Some v ->
      var_mynetworks_style (snd r) = Some v) /\
   (forall v, var_inet_protocols st = None ->
      mail_conf_lookup_eval env (VAR_INET_PROTOCOLS env) = Some v ->
      var_inet_protocols (snd r) = Some v)) /\
  pcf_count is_inet_proto_init (snd r) =
    (pcf_count is_inet_proto_init st
     + match var_inet_protocols st with Some _ => 0 | None => 1 end)%nat /\
  (var_inet_protocols st = None ->
   exists v,
     var_inet_protocols (snd r) = Some v /\
     In (Pcf_inet_proto_init (VAR_INET_PROTOCOLS env) v)
        (pcf_calls (snd r))).
Proof.
  intros Hc. cbv zeta.
  mynetworks_cases env st;
    rewrite ?List.filter_app, ?length_app; simpl;
    (split; [repeat split; intros; congruence|]);
    (split; [repeat split; eauto|]);
    (split; [intros Hm; try (apply Z.eqb_eq in Hm; congruence);
             try (apply Z.eqb_neq in Heqb; congruence);
             repeat split; intros; congruence|]);
    (split; [lia|]);
    intros; try congruence;
    eexists; (split; [reflexivity|]);
    rewrite ?in_app_iff; simpl; tauto.
Qed.

Lemma mynetworks_show_defs_ignores_main_cf_witness :
  let r := pcf_mynetworks sample_env_defs pcf_initial in
  Z.land (pcf_cmd_mode sample_env_defs) (PCF_SHOW_DEFS sample_env_defs) <> 0 /\
  mynetworks_networks pcf_initial = None /\
  pcf_count is_lookup_eval (snd r) = 0%nat /\
  var_inet_interfaces (snd r) = Some "all"%string.
Proof.
  intros r.
  assert (H1 : Z.land (pcf_cmd_mode sample_env_defs)
                 (PCF_SHOW_DEFS sample_env_defs) <> 0) by discriminate.
  assert (H2 : mynetworks_networks pcf_initial = None) by reflexivity.
  pose proof (mynetworks_show_defs_ignores_main_cf sample_env_defs
                pcf_initial H1 H2) as (Hc & Hi & _).
  exact (conj H1 (conj H2 (conj Hc Hi))).
Defined.

Lemma mynetworks_prepares_variables_witness :
  let r := pcf_mynetworks sample_env pcf_initial in
  mynetworks_networks pcf_initial = None /\
  is_Some (var_inet_interfaces (snd r)) /\
  is_Some (var_mynetworks_style (snd r)) /\
  is_Some (var_inet_protocols (snd r)) /\
  pcf_count is_inet_proto_init (snd r) = 1%nat.
Proof.
  intros r.
  assert (H : mynetworks_networks pcf_initial = None) by reflexivity.
  pose proof (mynetworks_prepares_variables sample_env pcf_initial H)
    as (_ & (H1 & H2 & H3) & _ & Hc & _).
  exact (conj H (conj H1 (conj H2 (conj H3 Hc)))).
Defined.

(** ** More on the response codes and on the skip branch *)

Lemma protocol_anomaly_false_iff code :
  protocol_anomaly code = false <->
  400 <= code <= 499 \/ 510 <= code <= 554 \/ 556 <= code <= 599.
Proof.
  pose proof (SMTP_SOFT_range code) as Hs.
  pose proof (SMTP_HARD_range code) as Hh.
  unfold protocol_anomaly.
  destruct (SMTP_SOFT code), (SMTP_HARD code); simpl;
    rewrite ?orb_false_iff, ?andb_false_iff, ?Z.eqb_neq, ?Z.leb_gt,
      ?Z.ltb_ge;
    split; intros; try done; try lia.
Qed.

Lemma soft_not_anomaly code :
  SMTP_SOFT code = true -> protocol_anomaly code = false.
Proof.
  intros Hs. apply protocol_anomaly_false_iff. left.
  by apply SMTP_SOFT_range.
Qed.

(** X21. The classification of every integer, not only of three digit
    codes: a code is soft exactly in 400..499 and hard exactly in
    500..599, so a negative code or a code of another length is neither,
    and the codes that are not a protocol anomaly are exactly 400..499,
    510..554 and 556..599. *)
Theorem classification_of_all_codes (code : Z) :
  (classify code = Soft <-> 400 <= code <= 499) /\
  (classify code = Hard <-> 500 <= code <= 599) /\
  (classify code = Neither <-> code < 400 \/ 599 < code) /\
  (protocol_anomaly code = false <->
     400 <= code <= 499 \/ 510 <= code <= 554 \/ 556 <= code <= 599).
Proof.
  split; [|split; [|split; [|apply protocol_anomaly_false_iff]]].
  all: pose proof (SMTP_SOFT_range code) as Hs;
    pose proof (SMTP_HARD_range code) as Hh;
    unfold classify;
    destruct (SMTP_SOFT code), (SMTP_HARD code);
    split; intros; try done; try lia.
Qed.

(** X22. A soft code before the final server changes the status and
    nothing else: [smtp_site_fail], [smtp_mesg_fail] and
    [smtp_rcpt_fail] return with the status set to -1, one informational
    record of the queue id and the text added to the history, and the
    request, the recipients, the final server flag and the error mask as
    they were. No session and no valid recipient is needed for that. *)
Theorem soft_skip_changes_status_only (MAIL_ERROR_PROTOCOL : Z)
    (DEL_REQ_TRACE_FLAGS : Z -> Z)
    (defer_append bounce_append : list event -> APPEND_ARGS -> Z)
    (state : SMTP_STATE) (code : Z) (nrcpt : nat) (why : string)
    (log : list event) :
  SMTP_SOFT code = true ->
  final_server state = 0 ->
  let w' := (set_status state (-1),
             log ++ [Ev_msg_info (queue_id (request state)) why]) in
  smtp_site_fail MAIL_ERROR_PROTOCOL DEL_REQ_TRACE_FLAGS defer_append
    bounce_append state code why log = Done (-1, w') /\
  smtp_mesg_fail MAIL_ERROR_PROTOCOL DEL_REQ_TRACE_FLAGS defer_append
    bounce_append state code why log = Done (-1, w') /\
  smtp_rcpt_fail MAIL_ERROR_PROTOCOL DEL_REQ_TRACE_FLAGS defer_append
    bounce_append state code nrcpt why log = Done w'.
Proof.
  intros Hs Hf w'.
  assert (B : disposition_branch state code = false).
  { unfold disposition_branch. by rewrite Hs, Hf. }
  pose proof (soft_not_anomaly code Hs) as Ha.
  rewrite site_fail_skip, mesg_fail_skip, rcpt_fail_skip by done.
  unfold smtp_check_code. rewrite Ha, Z.lor_m1_r. done.
Qed.

Lemma soft_skip_changes_status_only_witness :
  let state := sample_state None 0 in
  SMTP_SOFT 451 = true /\ final_server state = 0 /\
  smtp_rcpt_fail 2 sample_trace_flags (service_result 0) (service_result 0)
    state 451 9 "mailbox busy" []
  = Done (set_status state (-1), [Ev_msg_info "4F1C2A" "mailbox busy"]).
Proof.
  intros state.
  assert (H1 : SMTP_SOFT 451 = true) by reflexivity.
  assert (H2 : final_server state = 0) by reflexivity.
  pose proof (soft_skip_changes_status_only 2 sample_trace_flags
                (service_result 0) (service_result 0) state 451 9
                "mailbox busy" [] H1 H2) as (_ & _ & H).
  exact (conj H1 (conj H2 H)).
Defined.

(** ** The further properties on the sample request *)

Lemma status_bits_kept_witness :
  let w0 := (sample_state (Some sample_session) 0, []) in
  let run :=
    run_calls 2 1 2 sample_trace_flags (service_result 0) (service_result 0)
      [Site_fail 421 "too busy"; Mesg_fail 550 "message rejected"] w0 in
  let wj := nth 1 run w0 in
  let wk := nth 2 run w0 in
  run !! 1%nat = Some wj /\ run !! 2%nat = Some wk /\ (1 <= 2)%nat /\
  status (fst wj) = -1 /\ status (fst wk) = -1.
Proof.
  intros w0 run wj wk.
  assert (Hj : run !! 1%nat = Some wj) by reflexivity.
  assert (Hk : run !! 2%nat = Some wk) by reflexivity.
  assert (Hjk : (1 <= 2)%nat) by lia.
  assert (Hs : status (fst wj) = -1) by reflexivity.
  pose proof (status_bits_kept 2 1 2 sample_trace_flags (service_result 0)
                (service_result 0) _ _ _ _ _ _ Hj Hk Hjk) as (_ & H & _).
  exact (conj Hj (conj Hk (conj Hjk (conj Hs (H Hs))))).
Defined.

Lemma request_frame_witness :
  let w0 := (sample_state (Some sample_session) 0, []) in
  let run :=
    run_calls 2 1 2 sample_trace_flags (service_result 0) (service_result 0)
      [Site_fail 421 "too busy"; Mesg_fail 550 "message rejected"] w0 in
  let wj := nth 1 run w0 in
  let wk := nth 2 run w0 in
  run !! 1%nat = Some wj /\ run !! 2%nat = Some wk /\ (1 <= 2)%nat /\
  same_frame wj wk /\ exists new, snd wk = snd wj ++ new.
Proof.
  intros w0 run wj wk.
  assert (Hj : run !! 1%nat = Some wj) by reflexivity.
  assert (Hk : run !! 2%nat = Some wk) by reflexivity.
  assert (Hjk : (1 <= 2)%nat) by lia.
  exact (conj Hj (conj Hk (conj Hjk
           (request_frame 2 1 2 sample_trace_flags (service_result 0)
              (service_result 0) _ _ _ _ _ _ Hj Hk Hjk)))).
Defined.

Lemma no_skip_after_final_witness :
  let w0 := (sample_state (Some sample_session) 1, []) in
  let run :=
    run_calls 2 1 2 sample_trace_flags (service_result (-1))
      (service_result 0)
      [Rcpt_fail 450 0 "mailbox busy"; Site_fail 421 "too busy"] w0 in
  let wk := nth 2 run w0 in
  run !! 0%nat = Some w0 /\ run !! 2%nat = Some wk /\ (0 <= 2)%nat /\
  final_server (fst w0) <> 0 /\
  exists new,
    snd wk = snd w0 ++ new /\ forall e, e ∈ new -> is_info e = false.
Proof.
  intros w0 run wk.
  assert (Hj : run !! 0%nat = Some w0) by reflexivity.
  assert (Hk : run !! 2%nat = Some wk) by reflexivity.
  assert (Hjk : (0 <= 2)%nat) by lia.
  assert (Hf : final_server (fst w0) <> 0) by discriminate.
  exact (conj Hj (conj Hk (conj Hjk (conj Hf
           (no_skip_after_final 2 1 2 sample_trace_flags
              (service_result (-1)) (service_result 0)
              _ _ _ _ _ _ Hj Hk Hjk Hf))))).
Defined.

Lemma error_mask_gains_protocol_only_witness :
  let w0 := (sample_state (Some sample_session) 0, []) in
  let run :=
    run_calls 2 1 2 sample_trace_flags (service_result 0) (service_result 0)
      [Rcpt_fail 501 0 "bad syntax"; Mesg_fail 550 "message rejected"] w0 in
  let wk := nth 2 run w0 in
  run !! 0%nat = Some w0 /\ run !! 2%nat = Some wk /\ (0 <= 2)%nat /\
  (error_mask (fst wk) = error_mask (fst w0) \/
   error_mask (fst wk) = Z.lor (error_mask (fst w0)) 2).
Proof.
  intros w0 run wk.
  assert (Hj : run !! 0%nat = Some w0) by reflexivity.
  assert (Hk : run !! 2%nat = Some wk) by reflexivity.
  assert (Hjk : (0 <= 2)%nat) by lia.
  exact (conj Hj (conj Hk (conj Hjk
           (error_mask_gains_protocol_only 2 1 2 sample_trace_flags
              (service_result 0) (service_result 0)
              _ _ _ _ _ _ Hj Hk Hjk)))).
Defined.

Lemma hop_status_write_once_witness :
  let w0 := (sample_state (Some sample_session) 1, []) in
  let run :=
    run_calls 2 1 2 sample_trace_flags (service_result (-1))
      (service_result 0)
      [Site_fail 450 "temp fail"; Site_fail 421 "too busy"] w0 in
  let wj := nth 1 run w0 in
  let wk := nth 2 run w0 in
  run !! 1%nat = Some wj /\ run !! 2%nat = Some wk /\ (1 <= 2)%nat /\
  hop_of wj = Some "temp fail"%string /\
  hop_of wk = Some "temp fail"%string.
Proof.
  intros w0 run wj wk.
  assert (Hj : run !! 1%nat = Some wj) by reflexivity.
  assert (Hk : run !! 2%nat = Some wk) by reflexivity.
  assert (Hjk : (1 <= 2)%nat) by lia.
  assert (Hh : hop_of wj = Some "temp fail"%string) by reflexivity.
  pose proof (hop_status_write_once 2 1 2 sample_trace_flags
                (service_result (-1)) (service_result 0)
                _ _ _ _ _ _ Hj Hk Hjk) as (H & _).
  exact (conj Hj (conj Hk (conj Hjk (conj Hh (H _ Hh))))).
Defined.

Lemma rcpt_and_stream_keep_final_server_witness :
  let w0 := (sample_state (Some sample_session) 0, []) in
  let cs := [Rcpt_fail 550 0 "user unknown";
             Stream_except 1 "sending RCPT TO"] in
  let run :=
    run_calls 2 1 2 sample_trace_flags (service_result 0) (service_result 0)
      cs w0 in
  let wk := nth 2 run w0 in
  Forall (fun c => is_site_or_mesg c = false) cs /\
  run !! 2%nat = Some wk /\
  final_server (fst wk) = final_server (fst w0) /\ hop_of wk = hop_of w0.
Proof.
  intros w0 cs run wk.
  assert (Hc : Forall (fun c => is_site_or_mesg c = false) cs)
    by (repeat constructor).
  assert (Hk : run !! 2%nat = Some wk) by reflexivity.
  exact (conj Hc (conj Hk
           (rcpt_and_stream_keep_final_server 2 1 2 sample_trace_flags
              (service_result 0) (service_result 0) _ _ _ _ Hc Hk))).
Defined.

Lemma soft_defers_else_bounces_witness :
  let w := (sample_state (Some sample_session) 0, []) in
  let r :=
    step 2 1 2 sample_trace_flags (service_result 0) (service_result 0)
      (Site_fail 250 "unexpected reply") w in
  r = Done (result_or w r) /\
  exists new,
    snd (result_or w r) = snd w ++ new /\
    forall e, e ∈ new -> is_defer e = true -> SMTP_SOFT 250 = true.
Proof.
  intros w r.
  assert (H : r = Done (result_or w r)) by reflexivity.
  split; [exact H|].
  destruct (soft_defers_else_bounces 2 1 2 sample_trace_flags
              (service_result 0) (service_result 0) _ _ _ H)
    as (new & Hn & He).
  exists new. split; [exact Hn|]. intros e Hin. exact (proj2 (He e Hin)).
Defined.

Lemma unexpected_code_bounces_all_witness :
  let state := sample_state None 0 in
  classify 354 = Neither /\
  exists w' new,
    smtp_site_fail 2 sample_trace_flags (service_result 0) (service_result 0)
      state 354 "unexpected reply" [] = Done (-1, w') /\
    final_server (fst w') = 1 /\
    error_mask (fst w') = Z.lor (error_mask state) 2 /\
    snd w' = [] ++ new /\
    filter (fun e => is_completed e = false) new =
    map (fun r => Ev_bounce_append
                    (append_args sample_trace_flags (request state) r
                       (site_relay state) "unexpected reply"))
        (filter (fun r => offset r <> 0) (rcpt_list (request state))).
Proof.
  intros state.
  assert (H : classify 354 = Neither) by reflexivity.
  exact (conj H (unexpected_code_bounces_all 2 sample_trace_flags
                   (service_result 0) (service_result 0) state 354
                   "unexpected reply" [] H)).
Defined.

Lemma bulk_calls_in_order_witness :
  let state := sample_state (Some sample_session) 1 in
  disposition_branch state 450 = true /\
  exists w' new,
    smtp_site_fail 2 sample_trace_flags (service_result (-1))
      (service_result 0) state 450 "temp fail" [] = Done (-1, w') /\
    snd w' = [] ++ new /\
    filter (fun e => is_completed e = false) new =
    map (fun r => append_event (SMTP_SOFT 450)
                    (append_args sample_trace_flags (request state) r
                       (site_relay state) "temp fail"))
        (filter (fun r => offset r <> 0) (rcpt_list (request state))).
Proof.
  intros state.
  assert (B : disposition_branch state 450 = true) by reflexivity.
  exact (conj B (proj1 (bulk_calls_in_order 2 sample_trace_flags
                          (service_result (-1)) (service_result 0) state 450
                          "temp fail" [] B))).
Defined.

Lemma completed_once_per_finalized_witness :
  let w := (sample_state (Some sample_session) 0, []) in
  let c := Rcpt_fail 550 2 "user unknown" in
  let r :=
    step 2 1 2 sample_trace_flags (service_result 0) (service_result 0) c w in
  (forall code nrcpt why,
     c = Rcpt_fail code nrcpt why ->
     disposition_branch (fst w) code = true ->
     exists r0, rcpts_of w !! nrcpt = Some r0 /\ offset r0 <> 0) /\
  r = Done (result_or w r) /\
  exists new,
    snd (result_or w r) = snd w ++ new /\
    (finalized (rcpts_of w)
     + length (filter (fun e => is_completed e = true) new))%nat
    = finalized (rcpts_of (result_or w r)).
Proof.
  intros w c r.
  assert (Hpre : forall code nrcpt why,
            c = Rcpt_fail code nrcpt why ->
            disposition_branch (fst w) code = true ->
            exists r0, rcpts_of w !! nrcpt = Some r0 /\ offset r0 <> 0).
  { intros code nrcpt why Hc _. injection Hc as <- <- <-.
    eexists. split; [reflexivity | discriminate]. }
  assert (H : r = Done (result_or w r)) by reflexivity.
  split; [exact Hpre|]. split; [exact H|].
  destruct (completed_once_per_finalized 2 1 2 sample_trace_flags
              (service_result 0) (service_result 0) _ _ _ Hpre H)
    as (new & Hn & Hcount & _).
  exists new. by split.
Defined.

Lemma rcpt_fail_one_recipient_witness :
  let state := sample_state (Some sample_session) 0 in
  let r :=
    smtp_rcpt_fail 2 sample_trace_flags (service_result 0) (service_result 0)
      state 550 2 "user unknown" [] in
  let w' := result_or (state, []) r in
  r = Done w' /\
  length (rcpts_of w') = 3%nat /\
  forall i : nat, i <> 2%nat ->
    rcpts_of w' !! i = rcpt_list (request state) !! i.
Proof.
  intros state r w'.
  assert (H : r = Done w') by reflexivity.
  pose proof (rcpt_fail_one_recipient 2 sample_trace_flags (service_result 0)
                (service_result 0) state 550 2 "user unknown" [] w' H)
    as (Hl & Ho & _).
  exact (conj H (conj Hl Ho)).
Defined.

Lemma rcpt_fail_done_recipient_witness :
  let state := sample_state (Some sample_session) 1 in
  let r := mk_RECIPIENT 0 "" "bob@example.com" in
  disposition_branch state 550 = true /\
  rcpt_list (request state) !! 1%nat = Some r /\
  offset r = 0 /\
  session state = Some sample_session /\
  exists w',
    smtp_rcpt_fail 2 sample_trace_flags (service_result 0) (service_result 0)
      state 550 1 "user unknown" [] = Done w' /\
    rcpts_of w' = rcpt_list (request state) /\
    snd w' =
      [Ev_bounce_append
         (mk_APPEND_ARGS 0 "4F1C2A" "" "bob@example.com" 0
            "mx1.example.com[192.0.2.1]" 1000000 "user unknown");
       Ev_deliver_completed 7 0].
Proof.
  intros state r.
  assert (H1 : disposition_branch state 550 = true) by reflexivity.
  assert (H2 : rcpt_list (request state) !! 1%nat = Some r) by reflexivity.
  assert (H3 : offset r = 0) by reflexivity.
  assert (H4 : session state = Some sample_session) by reflexivity.
  exact (conj H1 (conj H2 (conj H3 (conj H4
           (proj2 (rcpt_fail_done_recipient 2 sample_trace_flags
                     (service_result 0) (service_result 0) state 550 1
                     "user unknown" [] r sample_session H1 H2 H3 H4)))))).
Defined.

Lemma nothing_left_no_calls_witness :
  let state :=
    set_request (sample_state None 1)
      (set_rcpt_list sample_request
         [mk_RECIPIENT 0 "" "bob@example.com"]) in
  Forall (fun r => offset r = 0) (rcpt_list (request state)) /\
  disposition_branch state 550 = true /\
  exists w',
    smtp_mesg_fail 2 sample_trace_flags (service_result 0) (service_result 0)
      state 550 "message rejected" [] = Done (-1, w') /\
    snd w' = [] /\ rcpts_of w' = rcpt_list (request state) /\
    status (fst w') = status state /\ final_server (fst w') = 1.
Proof.
  intros state.
  assert (H : Forall (fun r => offset r = 0) (rcpt_list (request state)))
    by (repeat constructor).
  assert (B : disposition_branch state 550 = true) by reflexivity.
  exact (conj H (conj B
           (proj2 (proj1 (nothing_left_no_calls 2 1 2 sample_trace_flags
                            (service_result 0) (service_result 0) state 550
                            "message rejected" [] H) B)))).
Defined.

Lemma status_zero_all_done_witness :
  let w := (sample_state (Some sample_session) 1, []) in
  let r :=
    step 2 1 2 sample_trace_flags (service_result 0) (service_result 0)
      (Mesg_fail 550 "message rejected") w in
  let w' := result_or w r in
  r = Done w' /\ status (fst w') = 0 /\
  Forall (fun r => offset r = 0) (rcpts_of w') /\ final_server (fst w') = 1.
Proof.
  intros w r w'.
  assert (H : r = Done w') by reflexivity.
  assert (Hz : status (fst w') = 0) by reflexivity.
  exact (conj H (conj Hz
           (status_zero_all_done 2 1 2 sample_trace_flags (service_result 0)
              (service_result 0) _ _ _ H Hz))).
Defined.

Lemma site_and_mesg_differ_in_hop_status_only_witness :
  let state := sample_state (Some sample_session) 1 in
  session state = Some sample_session /\
  exists st_site st_mesg log',
    smtp_site_fail 2 sample_trace_flags (service_result (-1))
      (service_result 0) state 450 "temp fail" []
    = Done (-1, (st_site, log')) /\
    smtp_mesg_fail 2 sample_trace_flags (service_result (-1))
      (service_result 0) state 450 "temp fail" []
    = Done (-1, (st_mesg, log')) /\
    set_request st_site
      (set_hop_status (request st_site) (hop_status (request state)))
    = st_mesg.
Proof.
  intros state.
  assert (H : session state = Some sample_session) by reflexivity.
  exact (conj H (site_and_mesg_differ_in_hop_status_only 2
                   sample_trace_flags (service_result (-1))
                   (service_result 0) state 450 "temp fail" []
                   sample_session H)).
Defined.
